(** * DatasetManagement: the dataset lifecycle manager of [dataset_manager.py]

    A shallow embedding of [dataset_manager.py].  The program is a sequence of
    filesystem operations, so the embedding is a small state-and-exception
    monad over a finite map from paths to nodes, together with a log of the
    effects and calls that happened.

    Modelling conventions.
    - A path is the list of its components below the filesystem root; the
      components are opaque names (no [..], no symbolic links).
    - A filesystem is a finite map from paths to nodes.  The root (the empty
      path) is a directory and is not stored.  Name resolution walks the
      components from the root as the operating system does, so the error
      raised on a missing or non-directory component is the one Python
      reports.
    - Permissions, timestamps and other metadata are not modelled.
    - The version of [VirusShare] names a subdirectory of [extracted]: it is
      one path component.
    - A run keeps a log: the constructions and calls made by the dispatcher
      and the effects of the primitives that returned normally.
    - The functions of other libraries that the program calls (the shuffle of
      scikit-learn's splitter, the order in which a directory is listed,
      [zlib.decompress], [hashlib.sha224], the [aws] subprocess) are
      parameters of the development. *)

From Stdlib Require Import Strings.Ascii Strings.String Strings.Byte Lists.List Arith Lia.
From stdpp Require Import gmap strings list fin_maps.

Open Scope string_scope.
Open Scope list_scope.

(** ** Paths *)

Abbreviation path := (list string).

(** [Path.parent]: the root is its own parent. *)
Definition parent (p : path) : path := removelast p.

(** [Path.name]: the last component. *)
Definition name_of (p : path) : string := List.last p "".

(** [Path.as_posix] (also [str(path)]) of an absolute path. *)
Fixpoint as_posix (p : path) : string :=
  match p with
  | [] => ""
  | c :: p' => "/" +:+ c +:+ as_posix p'
  end.

(** [q] is an entry of the directory [p]. *)
Definition is_child_of (p q : path) : bool :=
  bool_decide (q ≠ [] ∧ parent q = p).

(** [q] lies strictly below [p]. *)
Definition is_below (p q : path) : bool :=
  bool_decide (p `prefix_of` q ∧ q ≠ p).

(** ** Strings *)

(** [s.endswith(suf)]. *)
Definition ends_with (suf s : string) : bool :=
  let n := String.length s in
  let k := String.length suf in
  (k <=? n)%nat && String.eqb (substring (n - k) k s) suf.

(** [s.replace(old, new)] for a non-empty [old]: the occurrences are replaced
    from left to right without overlap.  [skip] counts the characters of an
    occurrence that were already consumed. *)
Fixpoint replace_from (old new s : string) (skip : nat) : string :=
  match s with
  | EmptyString => EmptyString
  | String c s' =>
      match skip with
      | S k => replace_from old new s' k
      | O =>
          if String.prefix old s
          then new +:+ replace_from old new s' (String.length old - 1)
          else String c (replace_from old new s' 0)
      end
  end.

Definition str_replace (s old new : string) : string :=
  replace_from old new s 0.

(** [s[1:]]. *)
Definition drop_first (s : string) : string :=
  match s with
  | EmptyString => EmptyString
  | String _ s' => s'
  end.

(** [s.rfind(".")] as the position of the last dot, if any. *)
Fixpoint rfind_dot (s : string) : option nat :=
  match s with
  | EmptyString => None
  | String c s' =>
      match rfind_dot s' with
      | Some i => Some (S i)
      | None => if Ascii.eqb c "."%char then Some 0%nat else None
      end
  end.

(** [PurePath.suffix] of a name: the part from the last dot on, when that dot
    is neither the first nor the last character. *)
Definition suffix_of (name : string) : string :=
  match rfind_dot name with
  | Some i =>
      if ((0 <? i)%nat && (i <? String.length name - 1)%nat)%bool
      then substring i (String.length name - i) name
      else ""
  | None => ""
  end.

(** [bytes(s, "utf-8")]: a string is kept as its sequence of UTF-8 bytes. *)
Definition utf8 (s : string) : list Byte.byte := list_byte_of_string s.

(** ** Filesystem, exceptions, effects *)

Inductive node :=
| Dir
| File (content : list Byte.byte).

#[global] Instance byte_eq_dec : EqDecision Byte.byte := Byte.byte_eq_dec.

#[global] Instance node_eq_dec : EqDecision node.
Proof. solve_decision. Defined.

Abbreviation filesystem := (gmap (list string) node).

Inductive exn :=
| NotImplementedError (msg : string)
| ValueError (msg : string)
| TypeError
| FileNotFoundError
| FileExistsError
| NotADirectoryError
| IsADirectoryError
| DirectoryNotEmptyError
| SameFileError
| ZlibError.

#[global] Instance exn_eq_dec : EqDecision exn.
Proof. solve_decision. Defined.

Inductive result (A : Type) :=
| Ok (a : A)
| Raise (e : exn).
Arguments Ok {A} a.
Arguments Raise {A} e.

(** The four classes of the registry and the four lifecycle operations. *)
Inductive cls := Sleipnir | VirusShare | Sorel | Windows.

#[global] Instance cls_eq_dec : EqDecision cls.
Proof. solve_decision. Defined.

Inductive op := Clean | Download | Extract | Process.

#[global] Instance op_eq_dec : EqDecision op.
Proof. solve_decision. Defined.

(** What a run leaves in its log, oldest entry first. *)
Inductive event :=
| Constructed (c : cls)        (* a manager object was constructed *)
| Called (o : op)              (* the dispatcher called the method [o] *)
| Mkdir (p : path)             (* a mkdir on [p] returned normally *)
| Rmtree (p : path)            (* the tree at [p] was removed *)
| Wrote (p : path)             (* the file [p] was created or overwritten *)
| Renamed (src dst : path)     (* [src] was moved onto [dst] *)
| Ran (argv : list string).    (* a subprocess was run *)

#[global] Instance event_eq_dec : EqDecision event.
Proof. solve_decision. Defined.

Record world := World { fs : filesystem; log : list event }.

(** The monad of the program: a state of type [world], and exceptions which
    keep the effects that happened before they were raised. *)
Definition M (A : Type) : Type := world → result A * world.

Definition ret {A} (a : A) : M A := fun w => (Ok a, w).

Definition raise {A} (e : exn) : M A := fun w => (Raise e, w).

Definition bind {A B} (m : M A) (k : A → M B) : M B :=
  fun w =>
    match m w with
    | (Ok a, w') => k a w'
    | (Raise e, w') => (Raise e, w')
    end.

Notation "x <- m ;; k" := (bind m (fun x => k))
  (at level 100, m at next level, k at level 200, right associativity).
Notation "m ;; k" := (bind m (fun _ => k))
  (at level 100, k at level 200, right associativity).

Definition emit (e : event) : M unit :=
  fun w => (Ok tt, World (fs w) (log w ++ [e])).

Definition get_fs : M filesystem := fun w => (Ok (fs w), w).

Definition put_fs (f : filesystem) : M unit :=
  fun w => (Ok tt, World f (log w)).

(** [for x in xs: body x]. *)
Fixpoint for_each {A} (xs : list A) (body : A → M unit) : M unit :=
  match xs with
  | [] => ret tt
  | x :: xs' => body x ;; for_each xs' body
  end.

(** ** Name resolution *)

(** Resolve the components [rest] below the directory [here]. *)
Fixpoint walk (f : filesystem) (here : path) (rest : list string) : result node :=
  match rest with
  | [] => Ok Dir
  | c :: rest' =>
      match f !! (here ++ [c]) with
      | None => Raise FileNotFoundError
      | Some n =>
          match rest' with
          | [] => Ok n
          | _ :: _ =>
              match n with
              | Dir => walk f (here ++ [c]) rest'
              | File _ => Raise NotADirectoryError
              end
          end
      end
  end.

(** [os.stat]. *)
Definition stat (f : filesystem) (p : path) : result node := walk f [] p.

(** [Path.exists] and [Path.is_dir]. *)
Definition path_exists (f : filesystem) (p : path) : bool :=
  match stat f p with Ok _ => true | Raise _ => false end.

Definition is_dir (f : filesystem) (p : path) : bool :=
  match stat f p with Ok Dir => true | _ => false end.

(** The entries of the directory [p], in the order of the map. *)
Definition children (f : filesystem) (p : path) : list path :=
  List.filter (is_child_of p) (map_to_list f).*1.

(** Everything strictly below [p]. *)
Definition descendants (f : filesystem) (p : path) : list path :=
  List.filter (is_below p) (map_to_list f).*1.

(** The node stored at [p], the root being a directory. *)
Definition entry (f : filesystem) (p : path) : option node :=
  match p with
  | [] => Some Dir
  | _ :: _ => f !! p
  end.

(** ** Filesystem primitives *)

(** [os.mkdir(p)]. *)
Definition os_mkdir (p : path) : M unit :=
  f <- get_fs ;;
  match stat f (parent p) with
  | Raise e => raise e
  | Ok (File _) => raise NotADirectoryError
  | Ok Dir =>
      match entry f p with
      | Some _ => raise FileExistsError
      | None => put_fs (<[p := Dir]> f)
      end
  end.

(** [Path.mkdir(parents=False, exist_ok=exist_ok)]: the [FileNotFoundError] of
    [os.mkdir] is re-raised; any other [OSError] is swallowed when [exist_ok]
    is set and the path is a directory. *)
Definition mkdir_flat (p : path) (exist_ok : bool) : M unit :=
  fun w =>
    match os_mkdir p w with
    | (Ok tt, w') => emit (Mkdir p) w'
    | (Raise FileNotFoundError, w') => (Raise FileNotFoundError, w')
    | (Raise e, w') =>
        if negb exist_ok || negb (is_dir (fs w') p)
        then (Raise e, w')
        else emit (Mkdir p) w'
    end.

(** [Path.mkdir(parents, exist_ok)] on the path whose components, last one
    first, are [rp]: on [FileNotFoundError] with [parents] set (and a parent
    other than the path itself) the parent is made with
    [mkdir(parents=True, exist_ok=True)] and the path with
    [mkdir(parents=False, exist_ok)]. *)
Fixpoint mkdir_up (rp : list string) (parents exist_ok : bool) : M unit :=
  fun w =>
    let p := rev rp in
    match os_mkdir p w with
    | (Ok tt, w') => emit (Mkdir p) w'
    | (Raise FileNotFoundError, w') =>
        match rp with
        | [] => (Raise FileNotFoundError, w')
        | _ :: rp' =>
            if parents
            then (mkdir_up rp' true true ;; mkdir_flat p exist_ok) w'
            else (Raise FileNotFoundError, w')
        end
    | (Raise e, w') =>
        if negb exist_ok || negb (is_dir (fs w') p)
        then (Raise e, w')
        else emit (Mkdir p) w'
    end.

Definition Path_mkdir (p : path) (parents exist_ok : bool) : M unit :=
  mkdir_up (rev p) parents exist_ok.

(** [shutil.rmtree(p)]: the directory [p] and everything below it. *)
Definition rmtree (p : path) : M unit :=
  f <- get_fs ;;
  match stat f p with
  | Raise e => raise e
  | Ok (File _) => raise NotADirectoryError
  | Ok Dir =>
      put_fs (filter (λ kv, ¬ p `prefix_of` kv.1) f) ;;
      emit (Rmtree p)
  end.

(** [open(p, "rb").read()]. *)
Definition read_file (p : path) : M (list Byte.byte) :=
  f <- get_fs ;;
  match stat f p with
  | Raise e => raise e
  | Ok Dir => raise IsADirectoryError
  | Ok (File c) => ret c
  end.

(** [open(p, "wb").write(c)]. *)
Definition write_file (p : path) (c : list Byte.byte) : M unit :=
  f <- get_fs ;;
  match stat f (parent p) with
  | Raise e => raise e
  | Ok (File _) => raise NotADirectoryError
  | Ok Dir =>
      match entry f p with
      | Some Dir => raise IsADirectoryError
      | _ => put_fs (<[p := File c]> f) ;; emit (Wrote p)
      end
  end.

(** [shutil.copy2(src, dst)]: into [dst] under the name of [src] when [dst]
    is a directory; copying a file onto itself is refused. *)
Definition copy2 (src dst : path) : M unit :=
  f <- get_fs ;;
  let target := if is_dir f dst then dst ++ [name_of src] else dst in
  if bool_decide (src = target) && path_exists f src
  then raise SameFileError
  else c <- read_file src ;; write_file target c.

(** Move the tree at [src] to [dst]. *)
Definition move_tree (src dst : path) (f : filesystem) : filesystem :=
  let moved := omap (λ q, (λ n, (dst ++ drop (length src) q, n)) <$> f !! q)
                    (List.filter (λ q, bool_decide (src `prefix_of` q)) (map_to_list f).*1) in
  list_to_map moved ∪ filter (λ kv, ¬ src `prefix_of` kv.1) f.

(** [Path.replace(dst)], that is [os.replace]: a file replaces a file, a
    directory replaces an empty directory. *)
Definition Path_replace (src dst : path) : M unit :=
  f <- get_fs ;;
  match stat f src with
  | Raise e => raise e
  | Ok n =>
      match stat f (parent dst) with
      | Raise e => raise e
      | Ok (File _) => raise NotADirectoryError
      | Ok Dir =>
          match n, entry f dst with
          | File _, Some Dir => raise IsADirectoryError
          | File c, _ =>
              put_fs (<[dst := File c]> (delete src f)) ;; emit (Renamed src dst)
          | Dir, Some (File _) => raise NotADirectoryError
          | Dir, Some Dir =>
              if bool_decide (children f dst = [])
              then put_fs (move_tree src dst f) ;; emit (Renamed src dst)
              else raise DirectoryNotEmptyError
          | Dir, None =>
              put_fs (move_tree src dst f) ;; emit (Renamed src dst)
          end
      end
  end.

(** [PurePath.with_suffix(suffix)] for a suffix that starts with a dot: an
    empty name is refused, an existing suffix is replaced. *)
Definition with_suffix (p : path) (suffix : string) : result path :=
  let name := name_of p in
  if String.eqb name "" then Raise (ValueError "empty name")
  else
    let old_suffix := suffix_of name in
    let stem := substring 0 (String.length name - String.length old_suffix) name in
    Ok (parent p ++ [stem +:+ suffix]).

(** ** The managers *)

(** The module defines [random_state] and does not pass it to the splitter. *)
Definition random_state : nat := 0.

Definition datasets_path : path := ["home"; "lk3591"; "Documents"; "datasets"].

Record manager := Manager {
  kind : cls;
  name : string;
  root : path;
  downloads_path : path;
  extracted_path : path;
  processed_path : path;
  version : option string
}.

(** [DatasetManager.__init__]. *)
Definition DatasetManager_init (c : cls) (name : string) (v : option string) : manager :=
  let root := datasets_path ++ [name] in
  {| kind := c;
     name := name;
     root := root;
     downloads_path := root ++ ["downloads"];
     extracted_path := root ++ ["extracted"];
     processed_path := root ++ ["processed"];
     version := v |}.

Definition Sorel_init : manager := DatasetManager_init Sorel "Sorel" None.

Definition Windows_init : manager := DatasetManager_init Windows "Windows" None.

(** [VirusShare.__init__]: the version names a subdirectory of [extracted];
    it is one path component. *)
Definition VirusShare_init (v : string) : manager :=
  let m := DatasetManager_init VirusShare "VirusShare" (Some v) in
  {| kind := kind m;
     name := name m;
     root := root m;
     downloads_path := downloads_path m;
     extracted_path := extracted_path m ++ [v];
     processed_path := processed_path m;
     version := version m |}.

Definition Sleipnir_init : manager := DatasetManager_init Sleipnir "SLEIPNIR" None.

(** [name_to_manager_map[dataset](version=version)]: only [VirusShare] reads
    the version, and [extracted_path / None] is a [TypeError]. *)
Definition new_manager (c : cls) (v : option string) : result manager :=
  match c with
  | Sleipnir => Ok Sleipnir_init
  | VirusShare =>
      match v with
      | Some s => Ok (VirusShare_init s)
      | None => Raise TypeError
      end
  | Sorel => Ok Sorel_init
  | Windows => Ok Windows_init
  end.

Definition lift {A} (r : result A) : M A :=
  match r with
  | Ok a => ret a
  | Raise e => raise e
  end.

(** ** The paper collection: the strings of [main.py]

    The stems are taken as ASCII strings: [str.upper], [str.split] and the
    class [\W] of [re] are modelled on the characters below 128. *)

(** [c.isspace()]: tab to carriage return, the four separators and space. *)
Definition is_space (c : ascii) : bool :=
  let n := nat_of_ascii c in
  ((9 <=? n) && (n <=? 13) || (28 <=? n) && (n <=? 32))%nat.

Definition is_alnum (c : ascii) : bool :=
  let n := nat_of_ascii c in
  ((48 <=? n) && (n <=? 57) || (65 <=? n) && (n <=? 90) || (97 <=? n) && (n <=? 122))%nat.

(** The class [\w] of [re]: letters, digits and the underscore. *)
Definition is_word (c : ascii) : bool := is_alnum c || Ascii.eqb c "_"%char.

(** [c.upper()]. *)
Definition upper_char (c : ascii) : ascii :=
  let n := nat_of_ascii c in
  if ((97 <=? n) && (n <=? 122))%nat then ascii_of_nat (n - 32) else c.

(** [all(p(c) for c in s)]. *)
Fixpoint all_chars (p : ascii → bool) (s : string) : bool :=
  match s with
  | EmptyString => true
  | String c s' => p c && all_chars p s'
  end.

(** [s.split()]: the maximal runs of characters that are not whitespace;
    [word] is the run read so far. *)
Fixpoint split_from (s : string) (word : string) : list string :=
  match s with
  | EmptyString => if String.eqb word "" then [] else [word]
  | String c s' =>
      if is_space c
      then (if String.eqb word "" then split_from s' "" else word :: split_from s' "")
      else split_from s' (word +:+ String c "")
  end.

Definition str_split (s : string) : list string := split_from s "".

(** [sep.join(words)]. *)
Fixpoint str_join (sep : string) (words : list string) : string :=
  match words with
  | [] => ""
  | [w] => w
  | w :: (_ :: _) as rest => w +:+ sep +:+ str_join sep rest
  end.

(** [w[0].upper() + w[1:]] for a word of [split], which is not empty. *)
Definition capitalise (w : string) : string :=
  match w with
  | EmptyString => EmptyString
  | String c w' => String (upper_char c) w'
  end.

(** [re.sub(r'\W+', '', s)]: every character outside [\w] is dropped. *)
Fixpoint remove_nonword (s : string) : string :=
  match s with
  | EmptyString => EmptyString
  | String c s' => if is_word c then String c (remove_nonword s') else remove_nonword s'
  end.

(** [rename], the local function of [clean_paper_collection]. *)
Definition rename (stem : string) : string :=
  let new_stem := str_replace (str_replace stem "_" " ") "-" " " in
  let new_stem := str_join "_" (capitalise <$> str_split new_stem) in
  remove_nonword new_stem.


(** ** Sample inputs *)

(** Instances of the parameters of the program: a directory listed in the
    order of the map, a shuffle that leaves the list as it is and one that
    reverses it, a [zlib] whose streams are stored uncompressed, a digest
    that is the SHA-224 of the empty string for every input, and a subprocess
    that does nothing. *)
Definition scan_in_map_order (l : list path) : list path := l.

Definition shuffle_identity (l : list path) : list path := l.

Definition shuffle_reverse (l : list path) : list path := rev l.

Definition zlib_stored (data : list Byte.byte) : option (list Byte.byte) := Some data.

Definition sha224_constant (data : list Byte.byte) : string :=
  "d14a028c2a3a2bc9476102bb288234c415a2b01f828ea62ac5b3e42f".

Definition subprocess_idle (argv : list string) (f : filesystem)
  : result unit * filesystem := (Ok tt, f).

(** The directories from the root down to [p]. *)
Definition dirs_to (p : path) : list (path * node) :=
  (λ k, (take k p, Dir)) <$> seq 1 (length p).

(** A directory [d] holding the files [names], each with the content [c]. *)
Definition files_in (d : path) (names : list string) (c : list Byte.byte)
  : list (path * node) :=
  (λ n, (d ++ [n], File c)) <$> names.

Definition ten_names : list string :=
  ["a.bin"; "b.bin"; "c.bin"; "d.bin"; "e.bin";
   "f.bin"; "g.bin"; "h.bin"; "i.bin"; "j.bin"].

(** [Sorel] with the ten files [a.bin] .. [j.bin] in [extracted] and an empty
    [processed]. *)
Definition ten_samples : world :=
  World (list_to_map
           (dirs_to (datasets_path ++ ["Sorel"; "extracted"])
            ++ [(datasets_path ++ ["Sorel"; "processed"], Dir)]
            ++ files_in (datasets_path ++ ["Sorel"; "extracted"]) ten_names []))
        [].

(** [Sorel] after [clean] and a download of one file: [downloads] holds the
    file, [extracted] and [processed] do not exist. *)
Definition sorel_downloaded : world :=
  World (list_to_map
           (dirs_to (datasets_path ++ ["Sorel"; "downloads"])
            ++ files_in (datasets_path ++ ["Sorel"; "downloads"]) ["00a1"] []))
        [].

(** The same with an [extracted] directory made by hand. *)
Definition sorel_downloaded_with_extracted : world :=
  World (<[datasets_path ++ ["Sorel"; "extracted"] := Dir]> (fs sorel_downloaded)) [].

(** [Sorel] with its three directories, one file in each of the first two. *)
Definition sorel_full : world :=
  World (list_to_map
           (dirs_to (datasets_path ++ ["Sorel"; "downloads"])
            ++ [(datasets_path ++ ["Sorel"; "extracted"], Dir);
                (datasets_path ++ ["Sorel"; "processed"], Dir)]
            ++ files_in (datasets_path ++ ["Sorel"; "downloads"]) ["00a1"] []
            ++ files_in (datasets_path ++ ["Sorel"; "extracted"]) ["00a1"] []))
        [].


(** [Windows] with one executable two levels below [downloads]. *)
Definition windows_downloaded : world :=
  World (list_to_map
           (dirs_to (datasets_path ++ ["Windows"; "downloads"; "System32"])
            ++ files_in (datasets_path ++ ["Windows"; "downloads"; "System32"])
                        ["calc.exe"] []))
        [].

Definition calc_exe : path :=
  datasets_path ++ ["Windows"; "downloads"; "System32"; "calc.exe"].

Definition calc_exe_hashed : path :=
  datasets_path ++ ["Windows"; "extracted";
                    "d14a028c2a3a2bc9476102bb288234c415a2b01f828ea62ac5b3e42f.exe"].

(** The datasets directory with nothing in it. *)
Definition empty_datasets : world :=
  World (list_to_map (dirs_to datasets_path)) [].

(** Every file written or moved by the run went into a directory on which a
    mkdir of the same run had returned before. *)
Fixpoint writes_after_mkdir (made : list path) (l : list event) : bool :=
  match l with
  | [] => true
  | Mkdir p :: l' => writes_after_mkdir (p :: made) l'
  | Wrote p :: l' => bool_decide (parent p ∈ made) && writes_after_mkdir made l'
  | Renamed _ dst :: l' => bool_decide (parent dst ∈ made) && writes_after_mkdir made l'
  | _ :: l' => writes_after_mkdir made l'
  end.

(** Lemmas on what the runs of the primitives respect. *)
Create HintDb run.

Section Program.

(** The order in which the operating system lists a directory. *)
Variable scandir_order : list path → list path.

(** The random permutation drawn by [train_test_split]. *)
Variable shuffle : list path → list path.

(** [zlib.decompress], [None] on data that is not a zlib stream. *)
Variable zlib_decompress : list Byte.byte → option (list Byte.byte).

(** [hashlib.sha224(data).hexdigest()]. *)
Variable sha224_hexdigest : list Byte.byte → string.

(** [subprocess.run(argv)]: what the child process does to the filesystem
    and whether starting it raised. *)
Variable subprocess_run : list string → filesystem → result unit * filesystem.

(** [Path.iterdir]. *)
Definition iterdir (p : path) : M (list path) :=
  f <- get_fs ;;
  match stat f p with
  | Raise e => raise e
  | Ok (File _) => raise NotADirectoryError
  | Ok Dir => ret (scandir_order (children f p))
  end.

(** [Path.rglob("*" + suffix)]: the entries below [p], files and
    directories, whose name ends with [suffix]; nothing when [p] is not a
    directory.  The listing is taken when the loop starts. *)
Definition rglob (p : path) (suffix : string) : M (list path) :=
  f <- get_fs ;;
  if is_dir f p
  then ret (scandir_order
              (List.filter (λ q, ends_with suffix (name_of q)) (descendants f p)))
  else ret [].

Definition run (argv : list string) : M unit :=
  fun w =>
    match subprocess_run argv (fs w) with
    | (Ok tt, f') => (Ok tt, World f' (log w ++ [Ran argv]))
    | (Raise e, f') => (Raise e, World f' (log w))
    end.

(** [sklearn.model_selection.train_test_split(arr)] with its defaults
    ([test_size=0.25], [shuffle=True]): [n_test = ceil(0.25 * n)],
    [n_train = n - n_test], a [ValueError] when the train set would be
    empty; the test set is the head of the permutation and the train set
    what follows it. *)
Definition train_test_split (arr : list path) : result (list path * list path) :=
  let n_samples := length arr in
  let n_test := (n_samples + 3) / 4 in
  let n_train := n_samples - n_test in
  if (n_train =? 0)%nat
  then Raise (ValueError "the resulting train set will be empty")
  else
    let permutation := shuffle arr in
    let test := take n_test permutation in
    let train := take n_train (drop n_test permutation) in
    Ok (train, test).

(** *** [DatasetManager] *)

Definition _setup (m : manager) : M unit :=
  for_each [root m; downloads_path m; extracted_path m; processed_path m]
           (λ p, Path_mkdir p true true).

Definition _clean (m : manager) (remove_download : bool) : M unit :=
  let paths := [extracted_path m; processed_path m] in
  let paths := if remove_download then paths ++ [downloads_path m] else paths in
  for_each paths rmtree.

Definition _process_into_train_test_split (m : manager) : M unit :=
  Path_mkdir (processed_path m ++ ["train"]) false true ;;
  Path_mkdir (processed_path m ++ ["test"]) false true ;;
  files <- iterdir (extracted_path m) ;;
  tt' <- lift (train_test_split files) ;;
  for_each (combine (fst tt') (snd tt'))
           (λ ff,
              copy2 (fst ff) (processed_path m ++ ["train"]) ;;
              copy2 (snd ff) (processed_path m ++ ["test"])).

Definition DatasetManager_clean (m : manager) : M unit :=
  raise (NotImplementedError (name m +:+ " cannot be cleaned.")).

Definition DatasetManager_download (m : manager) : M unit :=
  raise (NotImplementedError (name m +:+ " cannot be downloaded.")).

Definition DatasetManager_extract (m : manager) : M unit :=
  raise (NotImplementedError (name m +:+ " cannot be extracted.")).

Definition DatasetManager_process (m : manager) : M unit :=
  raise (NotImplementedError (name m +:+ " cannot be processed.")).

(** *** [Sorel] *)

Definition Sorel_clean (m : manager) : M unit := _clean m true.

Definition Sorel_download (m : manager) : M unit :=
  run ["aws"; "--no-sign-request"; "s3"; "cp";
       "s3://sorel-20m/09-DEC-2020/binaries/";
       as_posix (downloads_path m);
       "--recursive"; "--exclude='*'"; "--include='00*'"].

Definition Sorel_extract (m : manager) : M unit :=
  files <- iterdir (downloads_path m) ;;
  for_each files
           (λ f,
              data <- read_file f ;;
              decompressed <-
                match zlib_decompress data with
                | Some d => ret d
                | None => raise ZlibError
                end ;;
              write_file (extracted_path m ++ [name_of f]) decompressed).

Definition Sorel_process (m : manager) : M unit :=
  _process_into_train_test_split m.

(** *** [Windows] *)

Definition Windows_clean (m : manager) : M unit := DatasetManager_clean m.

Definition Windows_download (m : manager) : M unit := DatasetManager_download m.

(** The name under which [Windows.extract] stores the executable [p]. *)
Definition hashed_target (m : manager) (p : path) : result path :=
  let local_path := str_replace (as_posix p) (as_posix (extracted_path m)) "" in
  let hash := sha224_hexdigest (utf8 (drop_first local_path)) in
  with_suffix (extracted_path m ++ [hash]) ".exe".

Definition Windows_extract (m : manager) : M unit :=
  _setup m ;;
  found <- rglob (downloads_path m) ".exe" ;;
  for_each found
           (λ p, target <- lift (hashed_target m p) ;; Path_replace p target) ;;
  rest <- iterdir (downloads_path m) ;;
  for_each rest rmtree.

Definition Windows_process (m : manager) : M unit :=
  _process_into_train_test_split m.

(** *** [VirusShare] *)

Definition VirusShare_clean (m : manager) : M unit := _clean m false.

Definition VirusShare_extract (m : manager) : M unit :=
  Path_mkdir (extracted_path m) true true ;;
  raise (NotImplementedError
           "FIXME: hangs after 43817 files, when should be 65536 files").

Definition VirusShare_process (m : manager) : M unit :=
  _process_into_train_test_split m.

(** *** [Sleipnir] *)

Definition Sleipnir_clean (m : manager) : M unit := _clean m false.

Definition Sleipnir_download (m : manager) : M unit :=
  raise (NotImplementedError (name m +:+ " not available for download.")).

Definition Sleipnir_extract (m : manager) : M unit :=
  raise (NotImplementedError "").

Definition Sleipnir_process (m : manager) : M unit :=
  for_each ["train"; "test"]
           (λ split,
              Path_mkdir (processed_path m ++ [split]) false true ;;
              for_each ["benign"; "malicious"]
                       (λ category,
                          Path_mkdir (processed_path m ++ [split; category]) false true)) ;;
  for_each ["benign"; "malicious"]
           (λ category,
              files <- iterdir (extracted_path m ++ [category]) ;;
              tt' <- lift (train_test_split files) ;;
              for_each (combine (fst tt') (snd tt'))
                       (λ ff,
                          copy2 (fst ff) (processed_path m ++ ["train"; category]) ;;
                          copy2 (snd ff) (processed_path m ++ ["test"; category]))).

(** *** Method resolution and the dispatcher *)

Definition method (m : manager) (o : op) : M unit :=
  match kind m, o with
  | Sorel, Clean => Sorel_clean m
  | Sorel, Download => Sorel_download m
  | Sorel, Extract => Sorel_extract m
  | Sorel, Process => Sorel_process m
  | Windows, Clean => Windows_clean m
  | Windows, Download => Windows_download m
  | Windows, Extract => Windows_extract m
  | Windows, Process => Windows_process m
  | VirusShare, Clean => VirusShare_clean m
  | VirusShare, Download => DatasetManager_download m
  | VirusShare, Extract => VirusShare_extract m
  | VirusShare, Process => VirusShare_process m
  | Sleipnir, Clean => Sleipnir_clean m
  | Sleipnir, Download => Sleipnir_download m
  | Sleipnir, Extract => Sleipnir_extract m
  | Sleipnir, Process => Sleipnir_process m
  end.

(** A call of the dispatcher: logged, then run. *)
Definition call (m : manager) (o : op) : M unit :=
  emit (Called o) ;; method m o.

Definition name_to_manager_map : gmap string cls :=
  <["SLEIPNIR" := Sleipnir]>
    (<["VirusShare" := VirusShare]>
       (<["Sorel" := Sorel]> (<["Windows" := Windows]> ∅))).

Definition main (dataset : string) (clean download extract process : bool)
                (version : option string) : M unit :=
  match name_to_manager_map !! dataset with
  | None => raise (ValueError ("Invalid dataset provided: " +:+ dataset))
  | Some c =>
      manager <- lift (new_manager c version) ;;
      emit (Constructed c) ;;
      (if clean then call manager Clean else ret tt) ;;
      (if download then call manager Download else ret tt) ;;
      (if extract then call manager Extract else ret tt) ;;
      (if process then call manager Process else ret tt)
  end.

(** *** The paper collection: [clean_paper_collection] of [main.py] *)

Definition papers_path : path := ["home"; "lk3591"; "Documents"; "research"; "papers"].

(** [name[0] == "."]; the name of a directory entry is not empty. *)
Definition starts_with_dot (name : string) : bool :=
  match name with
  | EmptyString => false
  | String c _ => Ascii.eqb c "."%char
  end.

(** [PurePath.stem] of a name: the name without its suffix. *)
Definition stem_of (name : string) : string :=
  substring 0 (String.length name - String.length (suffix_of name)) name.

(** ["/" in name]. *)
Definition has_slash (name : string) : bool :=
  negb (all_chars (λ c, negb (Ascii.eqb c "/"%char)) name).

(** [PurePath.with_name(name)]: the path must have a name, and the new name
    must be one path component. *)
Definition with_name (p : path) (name : string) : result path :=
  if String.eqb (name_of p) "" then Raise (ValueError "empty name")
  else if String.eqb name "" || String.eqb name "." || has_slash name
       then Raise (ValueError "invalid name")
       else Ok (parent p ++ [name]).

(** [PurePath.with_stem(stem)] as Python 3.9 to 3.12 define it:
    [with_name(stem + suffix)]. *)
Definition with_stem (p : path) (stem : string) : result path :=
  with_name p (stem +:+ suffix_of (name_of p)).

(** [Path.unlink]: a directory is refused.  The removal is not logged. *)
Definition unlink (p : path) : M unit :=
  f <- get_fs ;;
  match stat f p with
  | Raise e => raise e
  | Ok Dir => raise IsADirectoryError
  | Ok (File _) => put_fs (delete p f)
  end.

(** [Path.replace(dst)] where the destination may be the path itself: the
    rename of a path that exists onto itself does nothing. *)
Definition os_replace (src dst : path) : M unit :=
  if bool_decide (src = dst)
  then f <- get_fs ;;
       match stat f src with
       | Raise e => raise e
       | Ok _ => ret tt
       end
  else Path_replace src dst.

Definition clean_paper_collection : M unit :=
  files <- iterdir papers_path ;;
  for_each files
           (λ f,
              if starts_with_dot (name_of f)
              then unlink f
              else
                new_f <- lift (with_stem f (rename (stem_of (name_of f)))) ;;
                os_replace f new_f).

(** A name that a second pass of the script leaves as it is: not hidden, one
    path component, with a stem that [rename] does not change. *)
Definition final_name (name : string) : Prop :=
  name ≠ ""
  ∧ starts_with_dot name = false
  ∧ has_slash name = false
  ∧ rename (stem_of name) = stem_of name.

(** A papers directory as the script finds it, and one that a run has
    already cleaned. *)
Definition papers_raw : world :=
  World (list_to_map
           (dirs_to papers_path
            ++ files_in papers_path
                 ["attention is all-you_need.pdf"; ".DS_Store"; "Deep_Learning.pdf"] []
            ++ [(["home"; "lk3591"; "notes.txt"], File [])]))
        [].

Definition papers_clean : world :=
  World (list_to_map
           (dirs_to papers_path
            ++ files_in papers_path
                 ["Attention_Is_All_You_Need.pdf"; "Deep_Learning.pdf"] []))
        [].

(** *** What the claims speak about *)

(** The operations the dispatcher called, in the order of the calls. *)
Definition calls (l : list event) : list op :=
  omap (λ e, match e with Called o => Some o | _ => None end) l.

(** The operations whose flags are set, in the order of the dispatcher. *)
Definition requested (clean download extract process : bool) : list op :=
  (if clean then [Clean] else []) ++
  (if download then [Download] else []) ++
  (if extract then [Extract] else []) ++
  (if process then [Process] else []).

(** The operations whose body ends in [NotImplementedError]. *)
Definition declines (c : cls) (o : op) : bool :=
  match c, o with
  | Windows, Clean | Windows, Download => true
  | VirusShare, Download | VirusShare, Extract => true
  | Sleipnir, Download | Sleipnir, Extract => true
  | _, _ => false
  end.

(** The names of the entries of the directory [p]. *)
Definition listing (f : filesystem) (p : path) : list string :=
  name_of <$> children f p.

(** Every run of [m] relates the world before to the world after. *)
Definition respects (R : relation world) {A} (m : M A) : Prop :=
  ∀ w, R w (m w).2.

(** The run appended events to the log, all of them satisfying [Q]. *)
Definition appends (Q : event → Prop) : relation world :=
  λ w w', ∃ l, log w' = log w ++ l ∧ Forall Q l.

(** The run left the entries whose path satisfies [K] as they were. *)
Definition keeps (K : path → Prop) : relation world :=
  λ w w', ∀ q, K q → fs w' !! q = fs w !! q.

(** The run removed and changed nothing; what it added are directories on
    the way to [target]. *)
Definition grows_towards (target : path) : relation world :=
  λ w w', ∀ q, fs w' !! q = fs w !! q
               ∨ (fs w !! q = None ∧ fs w' !! q = Some Dir ∧ q `prefix_of` target).

(** The run removed entries and did nothing else to the filesystem. *)
Definition shrinks : relation world :=
  λ w w', fs w' ⊆ fs w.

(** [p] and [q] lie on one branch of the tree. *)
Definition comparable (p q : path) : Prop :=
  p `prefix_of` q ∨ q `prefix_of` p.


(** *** What the further properties speak about *)

(** No regular file is in the way of a mkdir of [p]. *)
Definition clear_way (f : filesystem) (p : path) : Prop :=
  ∀ q content, q `prefix_of` p → f !! q ≠ Some (File content).

(** The number of files that the log says were written. *)
Definition wrote_count (l : list event) : nat :=
  length (List.filter (λ e, match e with Wrote _ => true | _ => false end) l).

(** ** Runs and relations on worlds *)

Section Respects.
Context (R : relation world) `{!PreOrder R}.

Lemma respects_ret {A} (a : A) : respects R (ret a).
Proof. intros w. simpl. reflexivity. Qed.

Lemma respects_raise {A} (e : exn) : respects R (@raise A e).
Proof. intros w. simpl. reflexivity. Qed.

Lemma respects_lift {A} (r : result A) : respects R (lift r).
Proof. destruct r; [apply respects_ret | apply respects_raise]. Qed.

Lemma respects_get_fs : respects R get_fs.
Proof. intros w. simpl. reflexivity. Qed.

Lemma respects_bind {A B} (m : M A) (k : A → M B) :
  respects R m → (∀ a, respects R (k a)) → respects R (bind m k).
Proof.
  intros Hm Hk w. unfold bind. specialize (Hm w).
  destruct (m w) as [[a|e] w1]; simpl in *.
  - etransitivity; [exact Hm | apply Hk].
  - exact Hm.
Qed.

Lemma respects_bind_lift {A B} (r : result A) (k : A → M B) :
  (∀ a, r = Ok a → respects R (k a)) → respects R (bind (lift r) k).
Proof.
  intros Hk w. destruct r as [a|e]; unfold bind; simpl.
  - by apply Hk.
  - reflexivity.
Qed.

Lemma respects_for_each {A} (xs : list A) (body : A → M unit) :
  (∀ x, x ∈ xs → respects R (body x)) → respects R (for_each xs body).
Proof.
  induction xs as [|x xs IH]; intros Hb; simpl.
  - apply respects_ret.
  - apply respects_bind.
    + apply Hb. left.
    + intros _. apply IH. intros y Hy. apply Hb. by right.
Qed.

Lemma respects_if {A} (b : bool) (m1 m2 : M A) :
  respects R m1 → respects R m2 → respects R (if b then m1 else m2).
Proof. by destruct b. Qed.

(** The three forms of [mkdir] respect what [os.mkdir] and the log
    entry respect. *)
Lemma respects_mkdir_handler p exist_ok e w :
  respects R (emit (Mkdir p)) →
  R w (if negb exist_ok || negb (is_dir (fs w) p)
       then (@Raise unit e, w)
       else emit (Mkdir p) w).2.
Proof.
  intros Hemit. destruct (negb exist_ok || negb (is_dir (fs w) p)).
  - reflexivity.
  - apply Hemit.
Qed.

Lemma respects_mkdir_flat p exist_ok :
  respects R (os_mkdir p) → respects R (emit (Mkdir p)) →
  respects R (mkdir_flat p exist_ok).
Proof.
  intros Hos Hemit w. unfold mkdir_flat. specialize (Hos w).
  destruct (os_mkdir p w) as [[[]|e] w1]; cbn [snd] in Hos.
  - etransitivity; [exact Hos | apply Hemit].
  - etransitivity; [exact Hos|].
    destruct e; try reflexivity; by apply respects_mkdir_handler.
Qed.

Lemma respects_mkdir_up rp parents exist_ok :
  (∀ k, respects R (os_mkdir (rev (drop k rp)))) →
  (∀ q, respects R (emit (Mkdir q))) →
  respects R (mkdir_up rp parents exist_ok).
Proof.
  intros Hos Hemit. revert parents exist_ok.
  induction rp as [|c rp IH]; intros parents exist_ok w;
    cbn [mkdir_up]; cbv zeta;
    pose proof (Hos 0%nat w) as H0; rewrite drop_0 in H0;
    destruct (os_mkdir (rev _) w) as [[[]|e] w1]; cbn [snd] in H0;
    (etransitivity; [exact H0|]); try apply Hemit.
  - destruct e; try reflexivity; by apply respects_mkdir_handler.
  - assert (Hrec : respects R (mkdir_up rp true true ;;
                               mkdir_flat (rev (c :: rp)) exist_ok)).
    { apply respects_bind.
      - apply IH. intros k. apply (Hos (S k)).
      - intros _. apply respects_mkdir_flat; [apply (Hos 0%nat) | apply Hemit]. }
    destruct e; try (by apply respects_mkdir_handler).
    destruct parents; [apply Hrec | reflexivity].
Qed.

Lemma respects_mkdir_here rp exist_ok :
  respects R (os_mkdir (rev rp)) →
  respects R (emit (Mkdir (rev rp))) →
  respects R (mkdir_up rp false exist_ok).
Proof.
  intros Hos Hemit w. specialize (Hos w).
  destruct rp as [|c rp]; cbn [mkdir_up]; cbv zeta;
    destruct (os_mkdir (rev _) w) as [[[]|e] w1]; cbn [snd] in Hos;
    (etransitivity; [exact Hos|]); try apply Hemit;
    destruct e; try reflexivity; by apply respects_mkdir_handler.
Qed.

(** From a run to its relation. *)
Lemma respects_run {A} (m : M A) w r w' :
  respects R m → m w = (r, w') → R w w'.
Proof. intros Hm Hw. specialize (Hm w). by rewrite Hw in Hm. Qed.
End Respects.

#[local] Hint Resolve respects_ret respects_raise respects_lift respects_get_fs : run.

#[local] Instance appends_preorder Q : PreOrder (appends Q).
Proof.
  split.
  - intros w. exists []. by rewrite app_nil_r.
  - intros w1 w2 w3 (l1 & E1 & F1) (l2 & E2 & F2).
    exists (l1 ++ l2). rewrite E2, E1, app_assoc. split; [done|].
    by apply Forall_app.
Qed.

#[local] Instance keeps_preorder K : PreOrder (keeps K).
Proof.
  split.
  - by intros w q _.
  - intros w1 w2 w3 H1 H2 q Hq. by rewrite H2, H1.
Qed.

#[local] Instance grows_towards_preorder t : PreOrder (grows_towards t).
Proof.
  split.
  - intros w q. by left.
  - intros w1 w2 w3 H1 H2 q.
    destruct (H1 q) as [E1|(N1 & D1 & P1)], (H2 q) as [E2|(N2 & D2 & P2)].
    + left. congruence.
    + right. repeat split; congruence.
    + right. repeat split; congruence.
    + congruence.
Qed.

#[local] Instance shrinks_preorder : PreOrder shrinks.
Proof.
  split.
  - intros w. unfold shrinks. done.
  - intros w1 w2 w3 H1 H2. unfold shrinks in *. by etransitivity.
Qed.

Ltac preorder := try match goal with |- PreOrder _ => apply _ end.

Ltac respects_go :=
  repeat first
    [ match goal with
      | |- PreOrder _ => apply _
      | |- ∀ _, _ => intros ?
      | |- respects _ (ret _) => apply respects_ret
      | |- respects _ (raise _) => apply respects_raise
      | |- respects _ (lift _) => apply respects_lift
      | |- respects _ get_fs => apply respects_get_fs
      | |- respects _ (bind (lift _) _) => apply respects_bind_lift
      | |- respects _ (bind _ _) => apply respects_bind
      | |- respects _ (if _ then _ else _) => apply respects_if
      | |- respects _ (match ?x with _ => _ end) => destruct x
      | |- respects _ (let _ := _ in _) => cbv zeta
      end
    | solve [eauto with run] ].

(** ** Name resolution *)

Lemma walk_raises f here rest e :
  walk f here rest = Raise e → e = FileNotFoundError ∨ e = NotADirectoryError.
Proof.
  revert here. induction rest as [|c rest IH]; intros here; simpl; [done|].
  destruct (f !! (here ++ [c])) as [n|]; [|intros [= <-]; by left].
  destruct rest as [|c' rest]; [done|].
  destruct n; [apply IH | intros [= <-]; by right].
Qed.

Lemma stat_raises f p e :
  stat f p = Raise e → e = FileNotFoundError ∨ e = NotADirectoryError.
Proof. apply walk_raises. Qed.

(** A path that resolves is stored in the map. *)
Lemma walk_lookup f here rest n :
  rest ≠ [] → walk f here rest = Ok n → f !! (here ++ rest) = Some n.
Proof.
  revert here. induction rest as [|c rest IH]; intros here Hne; [done|]. simpl.
  destruct (f !! (here ++ [c])) as [n'|] eqn:E; [|done].
  destruct rest as [|c' rest]; [by intros [= <-]|].
  destruct n'; [|done]. intros H.
  apply IH in H; [|done]. by rewrite <- app_assoc in H.
Qed.

Lemma stat_lookup f p n : p ≠ [] → stat f p = Ok n → f !! p = Some n.
Proof. intros Hne H. by apply (walk_lookup f [] p n). Qed.

(** Resolution looks only at the prefixes of the path. *)
Lemma walk_agree f g here rest :
  (∀ q, q `prefix_of` here ++ rest → f !! q = g !! q) →
  walk f here rest = walk g here rest.
Proof.
  revert here. induction rest as [|c rest IH]; intros here H; simpl; [done|].
  rewrite <- (H (here ++ [c])).
  2:{ exists rest. by rewrite <- app_assoc. }
  destruct (f !! (here ++ [c])) as [n|]; [|done].
  destruct rest as [|c' rest]; [done|].
  destruct n; [|done]. apply IH. intros q Hq. apply H.
  by rewrite <- app_assoc in Hq.
Qed.

Lemma stat_agree f g p :
  (∀ q, q `prefix_of` p → f !! q = g !! q) → stat f p = stat g p.
Proof. intros H. by apply walk_agree. Qed.

(** What resolves in a part of the filesystem resolves in the whole. *)
Lemma walk_mono f g here rest n :
  g ⊆ f → walk g here rest = Ok n → walk f here rest = Ok n.
Proof.
  intros Hsub. revert here. induction rest as [|c rest IH]; intros here; simpl; [done|].
  destruct (g !! (here ++ [c])) as [n'|] eqn:E; [|done].
  rewrite (lookup_weaken _ _ _ _ E Hsub).
  destruct rest as [|c' rest]; [done|].
  destruct n'; [apply IH | done].
Qed.

Lemma path_exists_mono f g p :
  g ⊆ f → path_exists f p = false → path_exists g p = false.
Proof.
  unfold path_exists, stat. intros Hsub H.
  destruct (walk g [] p) as [n|e] eqn:E; [|done].
  by rewrite (walk_mono _ _ _ _ _ Hsub E) in H.
Qed.

Lemma lookup_None_absent f p : p ≠ [] → f !! p = None → path_exists f p = false.
Proof.
  intros Hne H. unfold path_exists.
  destruct (stat f p) as [n|e] eqn:E; [|done].
  apply stat_lookup in E; [congruence | done].
Qed.

(** ** What the primitives write to the log *)

Section Appends.
Variable Q : event → Prop.
Hypothesis Q_mkdir : ∀ p, Q (Mkdir p).
Hypothesis Q_rmtree : ∀ p, Q (Rmtree p).
Hypothesis Q_wrote : ∀ p, Q (Wrote p).
Hypothesis Q_ran : ∀ argv, Q (Ran argv).

Lemma appends_emit e : Q e → respects (appends Q) (emit e).
Proof. intros He w. exists [e]. split; [done | by constructor]. Qed.

Lemma appends_put_fs f : respects (appends Q) (put_fs f).
Proof. intros w. exists []. simpl. by rewrite app_nil_r. Qed.

#[local] Hint Resolve appends_emit appends_put_fs : run.

Lemma appends_os_mkdir p : respects (appends Q) (os_mkdir p).
Proof. unfold os_mkdir. respects_go. Qed.

Lemma appends_Path_mkdir p parents exist_ok :
  respects (appends Q) (Path_mkdir p parents exist_ok).
Proof.
  apply respects_mkdir_up; preorder.
  - intros k. apply appends_os_mkdir.
  - intros q. by apply appends_emit.
Qed.

Lemma appends_rmtree p : respects (appends Q) (rmtree p).
Proof. unfold rmtree. respects_go. Qed.

Lemma appends_read_file p : respects (appends Q) (read_file p).
Proof. unfold read_file. respects_go. Qed.

Lemma appends_write_file p c : respects (appends Q) (write_file p c).
Proof. unfold write_file. respects_go. Qed.

#[local] Hint Resolve appends_read_file appends_write_file appends_rmtree
  appends_Path_mkdir : run.

Lemma appends_copy2 src dst : respects (appends Q) (copy2 src dst).
Proof. unfold copy2. respects_go. Qed.

Lemma appends_Path_replace src dst :
  Q (Renamed src dst) → respects (appends Q) (Path_replace src dst).
Proof. intros HQ. unfold Path_replace. respects_go. Qed.

Lemma appends_iterdir p : respects (appends Q) (iterdir p).
Proof. unfold iterdir. respects_go. Qed.

Lemma appends_rglob p suffix : respects (appends Q) (rglob p suffix).
Proof. unfold rglob. respects_go. Qed.

Lemma appends_run argv : respects (appends Q) (run argv).
Proof.
  intros w. unfold run.
  destruct (subprocess_run argv (fs w)) as [[[]|e] f']; simpl.
  - exists [Ran argv]. split; [done | by constructor].
  - exists []. by rewrite app_nil_r.
Qed.

#[local] Hint Resolve appends_copy2 appends_iterdir appends_rglob appends_run : run.

Lemma appends_process_into_train_test_split m :
  respects (appends Q) (_process_into_train_test_split m).
Proof.
  unfold _process_into_train_test_split. respects_go.
  apply respects_for_each; preorder. intros ff _. respects_go.
Qed.

Lemma appends_clean m remove_download :
  respects (appends Q) (_clean m remove_download).
Proof. unfold _clean. apply respects_for_each; preorder. intros p _. respects_go. Qed.

Lemma appends_setup m : respects (appends Q) (_setup m).
Proof. unfold _setup. apply respects_for_each; preorder. intros p _. respects_go. Qed.

#[local] Hint Resolve appends_process_into_train_test_split appends_clean
  appends_setup : run.

(** Every method appends only events that satisfy [Q], provided the
    renamings of [Windows.extract] do. *)
Lemma appends_method m o :
  (∀ src dst, hashed_target m src = Ok dst → Q (Renamed src dst)) →
  respects (appends Q) (method m o).
Proof.
  intros HQ. unfold method.
  destruct (kind m), o;
    unfold Sorel_clean, Sorel_download, Sorel_extract, Sorel_process,
      Windows_clean, Windows_download, Windows_extract, Windows_process,
      VirusShare_clean, VirusShare_extract, VirusShare_process,
      Sleipnir_clean, Sleipnir_download, Sleipnir_extract, Sleipnir_process,
      DatasetManager_clean, DatasetManager_download;
    respects_go;
    repeat (apply respects_for_each; preorder; intros ? _; respects_go).
  apply appends_Path_replace. by apply HQ.
Qed.
End Appends.

(** ** The dispatcher *)

Lemma calls_app l1 l2 : calls (l1 ++ l2) = calls l1 ++ calls l2.
Proof. apply omap_app. Qed.

Lemma calls_quiet l : Forall (λ e, ∀ o, e ≠ Called o) l → calls l = [].
Proof.
  induction 1 as [|e l He _ IH]; [done|].
  destruct e; try exact IH. by destruct (He o).
Qed.

(** A method never logs a call of the dispatcher. *)
Lemma method_calls m o w : calls (log (method m o w).2) = calls (log w).
Proof.
  destruct (appends_method (λ e, ∀ o, e ≠ Called o)) with (m := m) (o := o) (w := w)
    as (l & -> & Hl); try done.
  by rewrite calls_app, (calls_quiet l Hl), app_nil_r.
Qed.

Lemma call_calls m o w : calls (log (call m o w).2) = calls (log w) ++ [o].
Proof.
  unfold call, bind. simpl. rewrite method_calls. simpl. by rewrite calls_app.
Qed.

(** The calls of a sequence of operations: all of them when the run returns,
    those up to the one that raised otherwise. *)
Lemma for_each_call_calls m ops w :
  ∃ done, calls (log (for_each ops (call m) w).2) = calls (log w) ++ done
          ∧ done `prefix_of` ops
          ∧ ((for_each ops (call m) w).1 = Ok tt → done = ops)
          ∧ (∀ e, (for_each ops (call m) w).1 = Raise e → done ≠ []).
Proof.
  revert w. induction ops as [|o ops IH]; intros w.
  - exists []. simpl. rewrite app_nil_r. repeat split; try done.
  - simpl. unfold bind. pose proof (call_calls m o w) as Hc.
    destruct (call m o w) as [[[]|e] w1]; simpl in Hc.
    + destruct (IH w1) as (done & E & Hp & Hok & Hraise).
      exists (o :: done). rewrite E, Hc, <- app_assoc.
      split; [done|]. split; [by apply prefix_cons|].
      split; [|done]. intros H. by rewrite (Hok H).
    + exists [o]. split; [done|]. split; [apply prefix_cons, prefix_nil|].
      split; done.
Qed.

Lemma dispatch_for_each m (clean download extract process : bool) w :
  ((if clean then call m Clean else ret tt) ;;
   (if download then call m Download else ret tt) ;;
   (if extract then call m Extract else ret tt) ;;
   (if process then call m Process else ret tt)) w
  = for_each (requested clean download extract process) (call m) w.
Proof.
  destruct clean, download, extract, process; unfold requested; simpl;
    unfold bind, ret;
    repeat match goal with
           | |- context [call m ?o ?w'] => destruct (call m o w') as [[[]|?] ?]
           end; reflexivity.
Qed.

(** C10: a dataset name outside the registry makes the dispatcher raise
    [ValueError] before any manager is constructed and before any operation
    is called: the world, filesystem and log, is the one it started in. *)
Theorem main_rejects_unknown_dataset dataset clean download extract process version w :
  dataset ∉ ["SLEIPNIR"; "VirusShare"; "Sorel"; "Windows"] →
  main dataset clean download extract process version w
  = (Raise (ValueError ("Invalid dataset provided: " +:+ dataset)), w).
Proof.
  intros H. unfold main, name_to_manager_map.
  rewrite !not_elem_of_cons in H. destruct H as (H1 & H2 & H3 & H4 & _).
  rewrite !lookup_insert_ne, lookup_empty by done. reflexivity.
Qed.

(** C9, amended: once the manager is constructed, the dispatcher runs the
    operations whose flags are set in the order clean, download, extract,
    process, and stops at the first one that raises.  The operations it
    called are therefore a prefix of the requested ones: all of them when
    the run returns, and at least the one that raised otherwise. *)
Theorem main_calls_requested_until_raise
    dataset c version m clean download extract process w :
  name_to_manager_map !! dataset = Some c →
  new_manager c version = Ok m →
  main dataset clean download extract process version w
  = (emit (Constructed c) ;;
     for_each (requested clean download extract process) (call m)) w
  ∧ ∃ done,
      calls (log (main dataset clean download extract process version w).2)
      = calls (log w) ++ done
      ∧ done `prefix_of` requested clean download extract process
      ∧ ((main dataset clean download extract process version w).1 = Ok tt →
         done = requested clean download extract process)
      ∧ (∀ e, (main dataset clean download extract process version w).1 = Raise e →
         done ≠ []).
Proof.
  intros Hreg Hnew.
  assert (Heq : main dataset clean download extract process version w
                = (emit (Constructed c) ;;
                   for_each (requested clean download extract process) (call m)) w).
  { unfold main. rewrite Hreg, Hnew. unfold bind at 1. simpl.
    unfold bind at 1. simpl. unfold bind at 3. simpl.
    apply dispatch_for_each. }
  split; [exact Heq|]. rewrite Heq.
  change ((emit (Constructed c) ;;
           for_each (requested clean download extract process) (call m)) w)
    with (for_each (requested clean download extract process) (call m)
            (World (fs w) (log w ++ [Constructed c]))).
  destruct (for_each_call_calls m (requested clean download extract process)
              (World (fs w) (log w ++ [Constructed c])))
    as (done & E & Hp & Hok & Hraise).
  exists done. simpl in E. rewrite calls_app in E. simpl in E.
  rewrite app_nil_r in E. done.
Qed.

(** ** Renaming by hash *)

(** Every renaming that a run of [Windows.extract] logs moves a path to its
    [hashed_target]. *)
Lemma extract_renames_to_hashed_target (f : filesystem) (p d : path) :
  Renamed p d ∈ log (Windows_extract Windows_init (World f [])).2 →
  hashed_target Windows_init p = Ok d.
Proof.
  set (Q := λ e, ∀ s t, e = Renamed s t → hashed_target Windows_init s = Ok t).
  intros Hin.
  destruct (appends_method Q) with (m := Windows_init) (o := Extract) (w := World f [])
    as (l & El & Hl); try (by intros ? ? ? [=]).
  - intros src dst H s t [= <- <-]. exact H.
  - change (method Windows_init Extract) with (Windows_extract Windows_init) in El.
    rewrite El in Hin. simpl in Hin.
    rewrite Forall_forall in Hl. by apply (Hl _ Hin).
Qed.

(** ** Removing trees *)

Lemma rmtree_ok p w w' :
  rmtree p w = (Ok tt, w') →
  stat (fs w) p = Ok Dir ∧ fs w' = filter (λ kv, ¬ p `prefix_of` kv.1) (fs w).
Proof.
  unfold rmtree, bind, get_fs, put_fs, emit, raise. simpl.
  destruct (stat (fs w) p) as [[|c]|e]; simpl; [|done..].
  by intros [= <-].
Qed.

Lemma rmtree_raise p w e w' :
  rmtree p w = (Raise e, w') →
  w' = w ∧ (e = FileNotFoundError ∨ e = NotADirectoryError).
Proof.
  unfold rmtree, bind, get_fs, put_fs, emit, raise. simpl.
  destruct (stat (fs w) p) as [[|c]|e'] eqn:E; simpl; [done| |].
  - intros [= <- <-]. split; [done | by right].
  - intros [= <- <-]. split; [done | by apply stat_raises in E].
Qed.

Lemma rmtree_shrinks p : respects shrinks (rmtree p).
Proof.
  intros w. destruct (rmtree p w) as [[[]|e] w'] eqn:E; simpl.
  - apply rmtree_ok in E as [_ E]. unfold shrinks. rewrite E.
    apply map_filter_subseteq.
  - apply rmtree_raise in E as [-> _]. reflexivity.
Qed.

Lemma rmtree_gone p w w' :
  rmtree p w = (Ok tt, w') → ∀ q, p `prefix_of` q → fs w' !! q = None.
Proof.
  intros H q Hq. apply rmtree_ok in H as [_ ->].
  apply map_lookup_filter_None. right. intros n _. simpl. by intros Hn.
Qed.

(** A loop of [rmtree] that returns has removed every path of the list. *)
Lemma for_each_rmtree_gone ps w w' :
  for_each ps rmtree w = (Ok tt, w') → ∀ p, p ∈ ps → fs w' !! p = None.
Proof.
  revert w. induction ps as [|p0 ps IH]; intros w H p Hp.
  - by apply elem_of_nil in Hp.
  - simpl in H. unfold bind in H.
    destruct (rmtree p0 w) as [[[]|e] w1] eqn:E; [|done].
    apply elem_of_cons in Hp as [->|Hp]; [|by eapply IH].
    assert (Hs : shrinks w1 w').
    { eapply respects_run; [|exact H]. apply respects_for_each; preorder.
      intros x _. apply rmtree_shrinks. }
    eapply lookup_weaken_None; [|exact Hs]. by eapply rmtree_gone.
Qed.

(** A loop of [rmtree] over a list with an absent path raises. *)
Lemma for_each_rmtree_absent ps w p :
  p ∈ ps → path_exists (fs w) p = false →
  ∃ e w', for_each ps rmtree w = (Raise e, w')
          ∧ (e = FileNotFoundError ∨ e = NotADirectoryError).
Proof.
  revert w. induction ps as [|p0 ps IH]; intros w Hp Habs.
  - by apply elem_of_nil in Hp.
  - simpl. unfold bind. destruct (rmtree p0 w) as [[[]|e] w1] eqn:E.
    + apply elem_of_cons in Hp as [->|Hp].
      * apply rmtree_ok in E as [E _]. unfold path_exists in Habs. by rewrite E in Habs.
      * apply IH; [done|]. eapply path_exists_mono; [|exact Habs].
        eapply (respects_run shrinks); [apply rmtree_shrinks | exact E].
    + exists e, w1. split; [done|]. by apply rmtree_raise in E as [_ ?].
Qed.

(** The paths of a constructed manager. *)
Lemma manager_paths c version m :
  new_manager c version = Ok m →
  ∃ t, root m = datasets_path ++ [name m]
       ∧ downloads_path m = root m ++ ["downloads"]
       ∧ extracted_path m = root m ++ "extracted" :: t
       ∧ processed_path m = root m ++ ["processed"]
       ∧ kind m = c.
Proof.
  destruct c, version as [v|]; intros [= <-];
    first [by exists [v] | by exists []].
Qed.

Lemma manager_paths_nonempty c version m :
  new_manager c version = Ok m →
  downloads_path m ≠ [] ∧ extracted_path m ≠ [] ∧ processed_path m ≠ [].
Proof. by destruct c, version as [v|]; intros [= <-]. Qed.


(** C6: for a profile that supports [clean], the call raises when one of
    the directories it is to remove does not exist; the error is the one of
    the filesystem, [FileNotFoundError] or [NotADirectoryError]. *)
Theorem clean_raises_when_absent c version m w :
  new_manager c version = Ok m →
  c ≠ Windows →
  path_exists (fs w) (extracted_path m) = false
  ∨ path_exists (fs w) (processed_path m) = false
  ∨ (c = Sorel ∧ path_exists (fs w) (downloads_path m) = false) →
  ∃ e w', method m Clean w = (Raise e, w')
          ∧ (e = FileNotFoundError ∨ e = NotADirectoryError).
Proof.
  intros Hm Hc Habs.
  destruct (manager_paths _ _ _ Hm) as (_ & _ & _ & _ & _ & Hk).
  unfold method. rewrite Hk.
  destruct c; try done; unfold Sleipnir_clean, VirusShare_clean, Sorel_clean, _clean;
    destruct Habs as [H|[H|[? H]]]; try done;
    (eapply for_each_rmtree_absent; [|exact H]); set_solver.
Qed.

(** ** What the primitives do to the filesystem *)

Section Keeps.
Variable K : path → Prop.

Lemma keeps_emit e : respects (keeps K) (emit e).
Proof. by intros w q _. Qed.

Lemma keeps_os_mkdir p : ¬ K p → respects (keeps K) (os_mkdir p).
Proof.
  intros HK w q Hq. unfold os_mkdir, bind, get_fs, put_fs, raise. simpl.
  destruct (stat (fs w) (parent p)) as [[|c]|e]; simpl; try done.
  destruct (entry (fs w) p); simpl; [done|].
  apply lookup_insert_ne. by intros ->.
Qed.

Lemma keeps_mkdir_here p exist_ok :
  ¬ K p → respects (keeps K) (Path_mkdir p false exist_ok).
Proof.
  intros HK. unfold Path_mkdir.
  apply respects_mkdir_here; preorder; rewrite rev_involutive.
  - by apply keeps_os_mkdir.
  - apply keeps_emit.
Qed.

Lemma keeps_read_file p : respects (keeps K) (read_file p).
Proof.
  intros w q _. unfold read_file, bind, get_fs, raise, ret. simpl.
  by destruct (stat (fs w) p) as [[|c]|e].
Qed.

Lemma keeps_iterdir p : respects (keeps K) (iterdir p).
Proof.
  intros w q _. unfold iterdir, bind, get_fs, raise, ret. simpl.
  by destruct (stat (fs w) p) as [[|c]|e].
Qed.

Lemma keeps_write_file p c : ¬ K p → respects (keeps K) (write_file p c).
Proof.
  intros HK w q Hq. unfold write_file, bind, get_fs, put_fs, emit, raise. simpl.
  destruct (stat (fs w) (parent p)) as [[|c']|e]; simpl; try done.
  destruct (entry (fs w) p) as [[|c']|]; simpl; try done;
    apply lookup_insert_ne; by intros ->.
Qed.

Lemma keeps_copy2 src dst :
  ¬ K dst → (∀ x, ¬ K (dst ++ [x])) → respects (keeps K) (copy2 src dst).
Proof.
  intros HK HKx w. unfold copy2. unfold bind at 1. unfold get_fs.
  cbv zeta.
  destruct (bool_decide _ && path_exists (fs w) src); [by intros q _|].
  apply respects_bind; preorder; [apply keeps_read_file|].
  intros c. apply keeps_write_file. by destruct (is_dir (fs w) dst).
Qed.
End Keeps.

(** Two paths that part ways below a common directory are not comparable. *)
Lemma branches_apart (r : path) (a b : string) (t t' : path) :
  a ≠ b → ¬ comparable (r ++ a :: t) (r ++ b :: t').
Proof.
  intros Hab [H|H]; apply prefix_app_inv, prefix_cons_inv_1 in H; congruence.
Qed.

Lemma processed_apart c version m t :
  new_manager c version = Ok m →
  ¬ comparable (extracted_path m) (processed_path m ++ t).
Proof.
  intros Hm. destruct (manager_paths _ _ _ Hm) as (t0 & _ & _ & -> & -> & _).
  rewrite <- app_assoc. simpl. by apply branches_apart.
Qed.




(** ** Declined operations *)

Lemma rev_drop_rev_prefix (t : path) k : rev (drop k (rev t)) `prefix_of` t.
Proof. rewrite skipn_rev, rev_involutive. apply prefix_take. Qed.

Lemma grows_emit t e : respects (grows_towards t) (emit e).
Proof. intros w q. by left. Qed.

Lemma grows_os_mkdir t p : p `prefix_of` t → respects (grows_towards t) (os_mkdir p).
Proof.
  intros Hp w q. unfold os_mkdir, bind, get_fs, put_fs, raise. simpl.
  destruct (stat (fs w) (parent p)) as [[|c]|e]; simpl; try by left.
  destruct (entry (fs w) p) eqn:E; simpl; [by left|].
  destruct (decide (q = p)) as [->|Hne].
  - right. rewrite lookup_insert_eq. destruct p; [done|]. done.
  - left. by apply lookup_insert_ne.
Qed.

(** [mkdir(parents=True, exist_ok=True)] removes and changes nothing, and
    adds only directories on the way to its path. *)
Lemma grows_Path_mkdir t parents exist_ok :
  respects (grows_towards t) (Path_mkdir t parents exist_ok).
Proof.
  apply respects_mkdir_up; preorder.
  - intros k. apply grows_os_mkdir, rev_drop_rev_prefix.
  - intros q. apply grows_emit.
Qed.

(** Resolution of a path from the resolution of its parent. *)
Lemma walk_snoc f here rest c :
  walk f here (rest ++ [c])
  = match walk f here rest with
    | Ok Dir =>
        match f !! (here ++ rest ++ [c]) with
        | Some n => Ok n
        | None => Raise FileNotFoundError
        end
    | Ok (File _) => Raise NotADirectoryError
    | Raise e => Raise e
    end.
Proof.
  revert here. induction rest as [|a rest IH]; intros here.
  - simpl. by destruct (f !! (here ++ [c])).
  - cbn [walk app]. destruct (f !! (here ++ [a])) as [n|] eqn:E; [|done].
    destruct rest as [|b rest].
    + simpl. destruct n; [|done]. by rewrite <- app_assoc.
    + change ((b :: rest) ++ [c]) with (b :: (rest ++ [c])).
      cbv iota. destruct n; [|done].
      change (b :: (rest ++ [c])) with ((b :: rest) ++ [c]).
      rewrite IH. by rewrite <- !app_assoc.
Qed.

Lemma stat_snoc f p c :
  stat f (p ++ [c])
  = match stat f p with
    | Ok Dir =>
        match f !! (p ++ [c]) with
        | Some n => Ok n
        | None => Raise FileNotFoundError
        end
    | Ok (File _) => Raise NotADirectoryError
    | Raise e => Raise e
    end.
Proof. apply (walk_snoc f [] p c). Qed.

(** Resolution stops with [NotADirectoryError] at a file on the way. *)
Lemma stat_notdir f p :
  stat f p = Raise NotADirectoryError →
  ∃ q c, q `prefix_of` p ∧ f !! q = Some (File c).
Proof.
  induction p as [|c p IH] using rev_ind; [done|].
  rewrite stat_snoc. destruct (stat f p) as [[|c']|e] eqn:E.
  - by destruct (f !! (p ++ [c])).
  - intros _. exists p, c'. split; [by apply prefix_app_r|].
    apply stat_lookup; [|done]. by intros ->.
  - intros [= ->]. destruct IH as (q & c' & Hq & Hf); [done|].
    exists q, c'. split; [by apply prefix_app_r | done].
Qed.

Lemma entry_snoc f (p : path) c : entry f (p ++ [c]) = f !! (p ++ [c]).
Proof. by destruct p. Qed.

(** [os.mkdir] below an existing directory. *)
Lemma os_mkdir_below_dir p c w :
  stat (fs w) p = Ok Dir →
  os_mkdir (p ++ [c]) w
  = match fs w !! (p ++ [c]) with
    | Some _ => (Raise FileExistsError, w)
    | None => (Ok tt, World (<[p ++ [c] := Dir]> (fs w)) (log w))
    end.
Proof.
  intros H. unfold os_mkdir, bind, get_fs, put_fs, raise, parent. simpl.
  rewrite removelast_last, H, entry_snoc. by destruct (fs w !! (p ++ [c])).
Qed.

Lemma stat_insert_below f p c n :
  stat f p = Ok Dir → stat (<[p ++ [c] := n]> f) (p ++ [c]) = Ok n.
Proof.
  intros H. rewrite stat_snoc, lookup_insert_eq.
  rewrite (stat_agree _ f p), H; [done|].
  intros q Hq. apply lookup_insert_ne. intros <-.
  by apply prefix_snoc_not in Hq.
Qed.

(** [mkdir(exist_ok=True)] below an existing directory returns, unless a
    file has the name; the path is a directory afterwards. *)
Lemma mkdir_flat_returns p c w :
  stat (fs w) p = Ok Dir →
  (∀ content, fs w !! (p ++ [c]) ≠ Some (File content)) →
  ∃ w', mkdir_flat (p ++ [c]) true w = (Ok tt, w')
        ∧ stat (fs w') (p ++ [c]) = Ok Dir.
Proof.
  intros Hp Hfile. unfold mkdir_flat. rewrite os_mkdir_below_dir by done.
  destruct (fs w !! (p ++ [c])) as [[|content]|] eqn:E.
  - unfold is_dir. rewrite stat_snoc, Hp, E. simpl.
    eexists. split; [reflexivity|]. simpl. by rewrite stat_snoc, Hp, E.
  - by destruct (Hfile content).
  - simpl. eexists. split; [done|]. simpl. by apply stat_insert_below.
Qed.

(** [mkdir(parents=True, exist_ok=True)] returns when no file is in the way;
    the path is a directory afterwards. *)
Lemma mkdir_up_returns rp w :
  (∀ q content, q `prefix_of` rev rp → fs w !! q ≠ Some (File content)) →
  ∃ w', mkdir_up rp true true w = (Ok tt, w') ∧ stat (fs w') (rev rp) = Ok Dir.
Proof.
  revert w. induction rp as [|c rp IH]; intros w Hfile.
  - eexists. split; reflexivity.
  - assert (Hflat : ∀ w0, stat (fs w0) (rev rp) = Ok Dir →
                          fs w0 !! rev (c :: rp) = fs w !! rev (c :: rp) →
                          ∃ w', mkdir_flat (rev (c :: rp)) true w0 = (Ok tt, w')
                                ∧ stat (fs w') (rev (c :: rp)) = Ok Dir).
    { intros w0 H0 E0. simpl. apply mkdir_flat_returns; [done|].
      intros content. simpl in E0. rewrite E0. by apply Hfile. }
    cbn [mkdir_up]. cbv zeta.
    destruct (stat (fs w) (rev rp)) as [[|content]|e] eqn:E.
    + destruct (Hflat w E eq_refl) as (w' & Hw' & Hdir). exists w'. split; [|done].
      unfold mkdir_flat in Hw'. simpl in *. rewrite os_mkdir_below_dir in * by done.
      by destruct (fs w !! (rev rp ++ [c])) as [[|?]|].
    + exfalso. apply (Hfile (rev rp) content); [by apply prefix_app_r|].
      apply stat_lookup; [|done]. intros Hnil. by rewrite Hnil in E.
    + assert (Hos : os_mkdir (rev (c :: rp)) w = (Raise e, w)).
      { unfold os_mkdir, bind, get_fs, raise, parent. simpl.
        by rewrite removelast_last, E. }
      rewrite Hos. destruct (stat_raises _ _ _ E) as [-> | ->].
      * destruct (IH w) as (w1 & H1 & Hdir1).
        { intros q content Hq. apply Hfile. simpl. by apply prefix_app_r. }
        unfold bind. rewrite H1. apply Hflat; [done|].
        pose proof (grows_Path_mkdir (rev rp) true true w) as Hg.
        unfold Path_mkdir in Hg. rewrite rev_involutive, H1 in Hg.
        destruct (Hg (rev (c :: rp))) as [Heq|(_ & _ & Hpre)]; [done|].
        simpl in Hpre. by apply prefix_snoc_not in Hpre.
      * exfalso. apply stat_notdir in E as (q & content & Hq & Hf).
        apply (Hfile q content); [|done]. simpl. by apply prefix_app_r.
Qed.

Lemma Path_mkdir_returns p w :
  (∀ q content, q `prefix_of` p → fs w !! q ≠ Some (File content)) →
  ∃ w', Path_mkdir p true true w = (Ok tt, w') ∧ is_dir (fs w') p = true.
Proof.
  intros H. destruct (mkdir_up_returns (rev p) w) as (w' & Hw' & Hdir).
  { by rewrite rev_involutive. }
  exists w'. split; [done|]. unfold is_dir. by rewrite rev_involutive in Hdir; rewrite Hdir.
Qed.

(** C4, amended: every declined operation raises.  [Windows.clean],
    [Windows.download], [VirusShare.download], [Sleipnir.download] and
    [Sleipnir.extract] raise [NotImplementedError] and leave the world as
    it was.  [VirusShare.extract] first makes its extracted directory with
    the missing parents: it changes and removes no entry and adds only
    directories on the way to that directory; when no file is in the way the
    directory exists afterwards and the error is [NotImplementedError], and
    an error other than [NotImplementedError] is the one of the mkdir. *)
Theorem declined_operation_raises c version m o w :
  new_manager c version = Ok m →
  declines c o = true →
  ∃ e w',
    method m o w = (Raise e, w')
    ∧ grows_towards (extracted_path m) w w'
    ∧ ((c, o) ≠ (VirusShare, Extract) →
       w' = w ∧ ∃ msg, e = NotImplementedError msg)
    ∧ ((c, o) = (VirusShare, Extract) →
       (∀ q content, q `prefix_of` extracted_path m → fs w !! q ≠ Some (File content)) →
       is_dir (fs w') (extracted_path m) = true
       ∧ e = NotImplementedError
               "FIXME: hangs after 43817 files, when should be 65536 files")
    ∧ ((c, o) = (VirusShare, Extract) →
       (∀ msg, e ≠ NotImplementedError msg) →
       Path_mkdir (extracted_path m) true true w = (Raise e, w')).
Proof.
  intros Hm Hd.
  destruct (manager_paths _ _ _ Hm) as (_ & _ & _ & _ & _ & Hk).
  unfold method. rewrite Hk.
  destruct c, o; try discriminate Hd;
    try (eexists _, w; split; [reflexivity|];
         split; [reflexivity|]; split; [by eauto|]; split; by intros [=]).
  unfold VirusShare_extract, bind, raise.
  pose proof (grows_Path_mkdir (extracted_path m) true true w) as Hg.
  pose proof (Path_mkdir_returns (extracted_path m) w) as Hret.
  destruct (Path_mkdir (extracted_path m) true true w) as [[[]|e1] w1];
    simpl in Hg; eexists _, w1; (split; [reflexivity|]);
    (split; [exact Hg|]); (split; [done|]).
  - split.
    + intros _ Hfile. destruct (Hret Hfile) as (w2 & [= <-] & Hdir). done.
    + intros _ Hne. by destruct (Hne _ eq_refl).
  - split.
    + intros _ Hfile. by destruct (Hret Hfile) as (w2 & [=] & _).
    + done.
Qed.

(** ** When [clean] returns *)

Lemma stat_filter_apart (p q : path) (f : filesystem) :
  ¬ p `prefix_of` q →
  stat (filter (λ kv, ¬ p `prefix_of` kv.1) f) q = stat f q.
Proof.
  intros Hpq. apply stat_agree. intros t Ht.
  rewrite map_lookup_filter. destruct (f !! t) as [n|]; [|done]. simpl.
  rewrite option_guard_True; [done|]. simpl. intros Hpt. apply Hpq.
  by etransitivity.
Qed.

Lemma rmtree_returns p w :
  stat (fs w) p = Ok Dir →
  rmtree p w = (Ok tt, World (filter (λ kv, ¬ p `prefix_of` kv.1) (fs w))
                             (log w ++ [Rmtree p])).
Proof.
  intros H. unfold rmtree, bind, get_fs, put_fs, emit. simpl. by rewrite H.
Qed.

Lemma apart_prefix (r : path) (a b : string) (t t' : path) :
  a ≠ b → ¬ (r ++ a :: t) `prefix_of` (r ++ b :: t').
Proof. intros Hab H. apply prefix_app_inv, prefix_cons_inv_1 in H. congruence. Qed.

(** For a profile that supports [clean], the call returns when the
    directories it is to remove exist. *)
Lemma clean_returns c version m w :
  new_manager c version = Ok m →
  c ≠ Windows →
  is_dir (fs w) (extracted_path m) = true →
  is_dir (fs w) (processed_path m) = true →
  (c = Sorel → is_dir (fs w) (downloads_path m) = true) →
  ∃ w', method m Clean w = (Ok tt, w').
Proof.
  intros Hm Hc HE HP HD.
  assert (Hdir : ∀ f p, is_dir f p = true → stat f p = Ok Dir).
  { unfold is_dir. intros f p. by destruct (stat f p) as [[|?]|?]. }
  apply Hdir in HE, HP.
  destruct (manager_paths _ _ _ Hm) as (t & _ & ED & EE & EP & Hk).
  assert (HEP : ¬ extracted_path m `prefix_of` processed_path m).
  { rewrite EE, EP. by apply apart_prefix. }
  assert (HED : ¬ extracted_path m `prefix_of` downloads_path m).
  { rewrite EE, ED. by apply apart_prefix. }
  assert (HPD : ¬ processed_path m `prefix_of` downloads_path m).
  { rewrite EP, ED. by apply (apart_prefix _ _ _ []). }
  assert (H2 : ∃ w2, for_each [extracted_path m; processed_path m] rmtree w = (Ok tt, w2)
                     ∧ stat (fs w2) (downloads_path m) = stat (fs w) (downloads_path m)).
  { simpl. unfold bind. rewrite (rmtree_returns _ _ HE).
    rewrite rmtree_returns by (simpl; by rewrite stat_filter_apart).
    eexists. split; [reflexivity|]. simpl. by rewrite !stat_filter_apart. }
  destruct H2 as (w2 & H2 & HD2).
  unfold method. rewrite Hk.
  destruct c; try done; unfold Sleipnir_clean, VirusShare_clean, Sorel_clean, _clean;
    try (by exists w2).
  simpl in *. unfold bind in *.
  rewrite (rmtree_returns _ _ HE) in *.
  rewrite rmtree_returns in * by (simpl; by rewrite stat_filter_apart).
  injection H2 as <-. simpl in HD2.
  rewrite rmtree_returns; [by eexists|].
  simpl. rewrite !stat_filter_apart by done. apply Hdir. by apply HD.
Qed.

(** ** The split and the loop over its pairs *)

(** The sizes of the two parts of the split, and the number of pairs that
    [zip] makes of them: the loop of [process] runs once per test sample. *)
Lemma train_test_split_lengths arr train test :
  length (shuffle arr) = length arr →
  train_test_split arr = Ok (train, test) →
  length test = (length arr + 3) / 4
  ∧ length train = length arr - (length arr + 3) / 4
  ∧ length (combine train test) = (length arr + 3) / 4.
Proof.
  intros Hlen. unfold train_test_split. cbv zeta.
  pose proof (Nat.div_mod_eq (length arr + 3) 4) as Hdiv.
  pose proof (Nat.mod_upper_bound (length arr + 3) 4) as Hmod.
  set (n_test := (length arr + 3) / 4) in *.
  destruct (length arr - n_test =? 0)%nat eqn:E; [done|].
  apply Nat.eqb_neq in E. intros [= <- <-].
  rewrite length_combine, !length_take, length_drop, Hlen. lia.
Qed.

(** With three samples or more, the loop places fewer files than there
    are. *)
Lemma zip_loses_samples arr train test :
  length (shuffle arr) = length arr →
  train_test_split arr = Ok (train, test) →
  (3 ≤ length arr)%nat →
  (2 * length (combine train test) < length arr)%nat.
Proof.
  intros Hlen Hsplit Hn.
  destruct (train_test_split_lengths _ _ _ Hlen Hsplit) as (_ & _ & ->).
  pose proof (Nat.div_mod_eq (length arr + 3) 4) as Hdiv.
  pose proof (Nat.mod_upper_bound (length arr + 3) 4) as Hmod.
  set (n_test := (length arr + 3) / 4) in *. lia.
Qed.

(** * Further properties of the managers *)

(** ** [_setup] *)

Lemma grows_subseteq t w w' : grows_towards t w w' → fs w ⊆ fs w'.
Proof.
  intros H. apply map_subseteq_spec. intros q n Hq.
  destruct (H q) as [->|(Hn & _)]; congruence.
Qed.

Lemma grows_clear_way t p w w' :
  grows_towards t w w' → clear_way (fs w) p → clear_way (fs w') p.
Proof.
  intros H Hc q content Hq Hf.
  destruct (H q) as [E|(_ & E & _)]; [|congruence].
  rewrite E in Hf. by apply (Hc q content).
Qed.

Lemma stat_mono f g p n : g ⊆ f → stat g p = Ok n → stat f p = Ok n.
Proof. apply walk_mono. Qed.

(** A mkdir that returns leaves a directory. *)
Lemma os_mkdir_ok p w w' :
  os_mkdir p w = (Ok tt, w') → stat (fs w') p = Ok Dir.
Proof.
  destruct p as [|c p _] using rev_ind.
  - by intros [=].
  - unfold os_mkdir, bind, get_fs, put_fs, raise, parent. simpl.
    rewrite removelast_last, entry_snoc.
    destruct (stat (fs w) p) as [[|?]|?] eqn:E; try done.
    destruct (fs w !! (p ++ [c])); [done|]. intros [= <-]. simpl.
    by apply stat_insert_below.
Qed.

Lemma mkdir_flat_ok p exist_ok w w' :
  mkdir_flat p exist_ok w = (Ok tt, w') → stat (fs w') p = Ok Dir.
Proof.
  unfold mkdir_flat. destruct (os_mkdir p w) as [[[]|e] w1] eqn:E.
  - intros [= <-]. simpl. by eapply os_mkdir_ok.
  - assert (Hh : (if negb exist_ok || negb (is_dir (fs w1) p)
                  then (@Raise unit e, w1) else emit (Mkdir p) w1) = (Ok tt, w') →
                 stat (fs w') p = Ok Dir).
    { unfold is_dir. destruct (stat (fs w1) p) as [[|?]|?] eqn:Es;
        destruct exist_ok; simpl; try done. by intros [= <-]. }
    by destruct e.
Qed.

Lemma mkdir_up_ok rp parents exist_ok w w' :
  mkdir_up rp parents exist_ok w = (Ok tt, w') → stat (fs w') (rev rp) = Ok Dir.
Proof.
  destruct rp as [|c rp]; cbn [mkdir_up]; cbv zeta;
    destruct (os_mkdir (rev _) w) as [[[]|e] w1] eqn:E.
  - intros [= <-]. simpl. by eapply os_mkdir_ok.
  - intros _. reflexivity.
  - intros [= <-]. simpl. by eapply os_mkdir_ok.
  - assert (Hh : (if negb exist_ok || negb (is_dir (fs w1) (rev (c :: rp)))
                  then (@Raise unit e, w1) else emit (Mkdir (rev (c :: rp))) w1)
                 = (Ok tt, w') →
                 stat (fs w') (rev (c :: rp)) = Ok Dir).
    { unfold is_dir. destruct (stat (fs w1) (rev (c :: rp))) as [[|?]|?] eqn:Es;
        destruct exist_ok; simpl; try done. by intros [= <-]. }
    destruct e; try exact Hh. destruct parents; [|done].
    unfold bind. destruct (mkdir_up rp true true w1) as [[[]|?] w2]; [|done].
    apply mkdir_flat_ok.
Qed.

Lemma Path_mkdir_ok p parents exist_ok w w' :
  Path_mkdir p parents exist_ok w = (Ok tt, w') → is_dir (fs w') p = true.
Proof.
  intros H. apply mkdir_up_ok in H. rewrite rev_involutive in H.
  unfold is_dir. by rewrite H.
Qed.

(** A mkdir with [exist_ok] of a directory that exists returns and leaves the
    filesystem as it is. *)
Lemma Path_mkdir_existing p parents w :
  stat (fs w) p = Ok Dir →
  Path_mkdir p parents true w = (Ok tt, World (fs w) (log w ++ [Mkdir p])).
Proof.
  unfold Path_mkdir. destruct p as [|c p _] using rev_ind; [done|].
  rewrite stat_snoc. destruct (stat (fs w) p) as [[|?]|?] eqn:Ep; try done.
  destruct (fs w !! (p ++ [c])) as [n|] eqn:E; [|done]. intros [= ->].
  rewrite rev_unit. cbn [mkdir_up]. cbv zeta.
  change (rev (c :: rev p)) with (rev (rev p) ++ [c]). rewrite rev_involutive.
  rewrite os_mkdir_below_dir, E by done.
  unfold is_dir. by rewrite stat_snoc, Ep, E.
Qed.

Lemma for_each_mkdir_returns ps w :
  Forall (clear_way (fs w)) ps →
  ∃ w', for_each ps (λ p, Path_mkdir p true true) w = (Ok tt, w')
        ∧ Forall (λ p, is_dir (fs w') p = true) ps
        ∧ fs w ⊆ fs w'.
Proof.
  revert w. induction ps as [|p ps IH]; intros w Hc.
  - exists w. by repeat split.
  - apply Forall_cons in Hc as [Hp Hps].
    destruct (Path_mkdir_returns p w Hp) as (w1 & H1 & Hdir).
    pose proof (grows_Path_mkdir p true true w) as Hg. rewrite H1 in Hg. simpl in Hg.
    destruct (IH w1) as (w' & H' & Hdirs & Hsub).
    { eapply Forall_impl; [exact Hps|]. intros q. by apply (grows_clear_way p). }
    exists w'. simpl. unfold bind. rewrite H1. split; [done|]. split.
    + apply Forall_cons. split; [|done]. unfold is_dir in *.
      destruct (stat (fs w1) p) as [[|?]|?] eqn:E; try done.
      by rewrite (stat_mono _ _ _ _ Hsub E).
    + etransitivity; [|exact Hsub]. by apply (grows_subseteq p).
Qed.

Lemma clear_way_prefix f p q : q `prefix_of` p → clear_way f p → clear_way f q.
Proof. intros Hq Hp t content Ht. apply Hp. by etransitivity. Qed.

(** X1: [_setup] returns when no regular file is in the way of the three
    directories; the root of the dataset and its downloads, extracted and
    processed directories exist afterwards, and every entry that was stored
    before is stored unchanged. *)
Theorem setup_makes_directories c version m w :
  new_manager c version = Ok m →
  clear_way (fs w) (downloads_path m) →
  clear_way (fs w) (extracted_path m) →
  clear_way (fs w) (processed_path m) →
  ∃ w', _setup m w = (Ok tt, w')
        ∧ is_dir (fs w') (root m) = true
        ∧ is_dir (fs w') (downloads_path m) = true
        ∧ is_dir (fs w') (extracted_path m) = true
        ∧ is_dir (fs w') (processed_path m) = true
        ∧ (∀ q n, fs w !! q = Some n → fs w' !! q = Some n).
Proof.
  intros Hm HD HE HP.
  destruct (manager_paths _ _ _ Hm) as (t & _ & ED & _ & _ & _).
  destruct (for_each_mkdir_returns
              [root m; downloads_path m; extracted_path m; processed_path m] w)
    as (w' & H & Hdirs & Hsub).
  { repeat (apply Forall_cons; split); try done.
    apply (clear_way_prefix _ (downloads_path m)); [|done].
    rewrite ED. by apply prefix_app_r. }
  exists w'. split; [exact H|].
  apply Forall_cons in Hdirs as [? Hdirs]. apply Forall_cons in Hdirs as [? Hdirs].
  apply Forall_cons in Hdirs as [? Hdirs]. apply Forall_cons in Hdirs as [? _].
  repeat (split; [done|]). intros q n Hq. by eapply lookup_weaken.
Qed.

Lemma for_each_mkdir_ok ps w w' :
  for_each ps (λ p, Path_mkdir p true true) w = (Ok tt, w') →
  Forall (λ p, stat (fs w') p = Ok Dir) ps.
Proof.
  revert w. induction ps as [|p ps IH]; intros w H; [done|].
  simpl in H. unfold bind in H.
  destruct (Path_mkdir p true true w) as [[[]|?] w1] eqn:E; [|done].
  apply Forall_cons. split; [|by eapply IH].
  apply mkdir_up_ok in E. rewrite rev_involutive in E.
  eapply stat_mono; [|exact E].
  clear IH E. revert w1 H. induction ps as [|p' ps IH]; intros w1 H.
  - by injection H as <-.
  - simpl in H. unfold bind in H.
    pose proof (grows_Path_mkdir p' true true w1) as Hg.
    destruct (Path_mkdir p' true true w1) as [[[]|?] w2]; [|done].
    etransitivity; [by apply (grows_subseteq p') | by apply IH].
Qed.

Lemma for_each_mkdir_existing ps w :
  Forall (λ p, stat (fs w) p = Ok Dir) ps →
  ∃ w', for_each ps (λ p, Path_mkdir p true true) w = (Ok tt, w') ∧ fs w' = fs w.
Proof.
  revert w. induction ps as [|p ps IH]; intros w H.
  - by exists w.
  - apply Forall_cons in H as [Hp Hps]. simpl. unfold bind.
    rewrite (Path_mkdir_existing p true w Hp).
    destruct (IH (World (fs w) (log w ++ [Mkdir p]))) as (w' & H' & E); [done|].
    by exists w'.
Qed.

(** X2: [_setup] is idempotent.  After a run that returned, a second run
    returns as well and leaves the filesystem as the first one left it. *)
Theorem setup_idempotent m w w1 :
  _setup m w = (Ok tt, w1) →
  ∃ w2, _setup m w1 = (Ok tt, w2) ∧ fs w2 = fs w1.
Proof.
  intros H. apply for_each_mkdir_existing. by eapply for_each_mkdir_ok.
Qed.

(** ** [_clean] *)

Lemma keeps_rmtree K p :
  (∀ q, K q → ¬ p `prefix_of` q) → respects (keeps K) (rmtree p).
Proof.
  intros HK w q Hq. destruct (rmtree p w) as [[[]|e] w'] eqn:E; simpl.
  - apply rmtree_ok in E as [_ ->].
    rewrite map_lookup_filter. destruct (fs w !! q) as [n|]; [|done]. simpl.
    rewrite option_guard_True; [done|]. simpl. by apply HK.
  - by apply rmtree_raise in E as [-> _].
Qed.

Lemma for_each_rmtree_gone_below ps w w' :
  for_each ps rmtree w = (Ok tt, w') →
  ∀ p q, p ∈ ps → p `prefix_of` q → fs w' !! q = None.
Proof.
  revert w. induction ps as [|p0 ps IH]; intros w H p q Hp Hq.
  - by apply elem_of_nil in Hp.
  - simpl in H. unfold bind in H.
    destruct (rmtree p0 w) as [[[]|e] w1] eqn:E; [|done].
    apply elem_of_cons in Hp as [->|Hp]; [|by eapply IH].
    assert (Hs : shrinks w1 w').
    { eapply respects_run; [|exact H]. apply respects_for_each; preorder.
      intros x _. apply rmtree_shrinks. }
    eapply lookup_weaken_None; [|exact Hs]. by eapply rmtree_gone.
Qed.

(** The directories that the [clean] of the class removes. *)
Lemma clean_is_loop c version m :
  new_manager c version = Ok m →
  c ≠ Windows →
  method m Clean
  = for_each ([extracted_path m; processed_path m]
              ++ (if bool_decide (c = Sorel) then [downloads_path m] else []))
             rmtree.
Proof.
  intros Hm Hc. destruct (manager_paths _ _ _ Hm) as (_ & _ & _ & _ & _ & Hk).
  unfold method. rewrite Hk. by destruct c.
Qed.


(** X3: a [clean] that returns has removed the trees of the extracted and of
    the processed directory, and of the downloads directory for [Sorel], and
    has done nothing else: an entry under one of these directories is gone,
    every other entry is stored as before. *)
Theorem clean_removes_the_trees_only c version m w w' q :
  new_manager c version = Ok m →
  method m Clean w = (Ok tt, w') →
  fs w' !! q
  = if bool_decide (extracted_path m `prefix_of` q
                    ∨ processed_path m `prefix_of` q
                    ∨ (c = Sorel ∧ downloads_path m `prefix_of` q))
    then None
    else fs w !! q.
Proof.
  intros Hm H.
  assert (Hc : c ≠ Windows).
  { intros ->. simpl in Hm. injection Hm as <-. discriminate H. }
  rewrite (clean_is_loop _ _ _ Hm Hc) in H.
  destruct (decide (extracted_path m `prefix_of` q
                    ∨ processed_path m `prefix_of` q
                    ∨ (c = Sorel ∧ downloads_path m `prefix_of` q))) as [Hq|Hq];
    [rewrite bool_decide_eq_true_2 by done | rewrite bool_decide_eq_false_2 by done].
  - assert (∃ p, p ∈ [extracted_path m; processed_path m]
                       ++ (if bool_decide (c = Sorel) then [downloads_path m] else [])
                 ∧ p `prefix_of` q) as (p & Hp & Hpq).
    { destruct Hq as [Hq|[Hq|[Hs Hq]]]; eexists; (split; [|exact Hq]);
        [set_solver | set_solver |].
      rewrite bool_decide_eq_true_2 by done. set_solver. }
    by eapply for_each_rmtree_gone_below.
  - eapply (respects_run (keeps (λ q, ¬ (extracted_path m `prefix_of` q
                    ∨ processed_path m `prefix_of` q
                    ∨ (c = Sorel ∧ downloads_path m `prefix_of` q)))));
      [|exact H|exact Hq].
    apply respects_for_each; preorder. intros p Hp.
    apply keeps_rmtree. intros t Ht Hpt. apply Ht.
    apply elem_of_app in Hp as [Hp|Hp].
    + apply elem_of_cons in Hp as [->|Hp]; [by left|].
      apply list_elem_of_singleton in Hp as ->. right. by left.
    + case_bool_decide as Hs; [|by apply elem_of_nil in Hp].
      apply list_elem_of_singleton in Hp as ->. right. by right.
Qed.

(** X4: [clean] is not atomic.  When the extracted directory exists and the
    processed directory does not, the call raises after it has removed the
    tree of the extracted directory; everything else is as before. *)
Theorem clean_raises_after_removing_extracted c version m w :
  new_manager c version = Ok m →
  c ≠ Windows →
  is_dir (fs w) (extracted_path m) = true →
  path_exists (fs w) (processed_path m) = false →
  ∃ e w',
    method m Clean w = (Raise e, w')
    ∧ (e = FileNotFoundError ∨ e = NotADirectoryError)
    ∧ ∀ q, fs w' !! q
           = if bool_decide (extracted_path m `prefix_of` q) then None else fs w !! q.
Proof.
  intros Hm Hc HE HP. rewrite (clean_is_loop _ _ _ Hm Hc).
  assert (HE' : stat (fs w) (extracted_path m) = Ok Dir).
  { unfold is_dir in HE. by destruct (stat (fs w) (extracted_path m)) as [[|?]|?]. }
  simpl. unfold bind. rewrite (rmtree_returns _ _ HE').
  set (w1 := World _ _).
  assert (HP1 : path_exists (fs w1) (processed_path m) = false).
  { eapply path_exists_mono; [|exact HP]. apply map_filter_subseteq. }
  unfold path_exists in HP1.
  destruct (rmtree (processed_path m) w1) as [[[]|e] w2] eqn:E.
  - apply rmtree_ok in E as [E _]. by rewrite E in HP1.
  - apply rmtree_raise in E as [-> He]. exists e, w1. split; [done|]. split; [done|].
    intros q. simpl. rewrite map_lookup_filter.
    destruct (decide (extracted_path m `prefix_of` q)) as [Hq|Hq];
      [rewrite bool_decide_eq_true_2 by done | rewrite bool_decide_eq_false_2 by done].
    + destruct (fs w !! q); [|done]. simpl. by rewrite option_guard_False by (simpl; tauto).
    + destruct (fs w !! q); [|done]. simpl. by rewrite option_guard_True.
Qed.

(** ** [process] without a processed directory *)

(** A mkdir without [parents] below something that is not a directory
    raises and leaves the world as it is. *)
Lemma mkdir_here_below_nothing p c exist_ok w :
  is_dir (fs w) p = false →
  ∃ e, Path_mkdir (p ++ [c]) false exist_ok w = (Raise e, w)
       ∧ (e = FileNotFoundError ∨ e = NotADirectoryError).
Proof.
  intros Hp. unfold Path_mkdir. rewrite rev_unit. cbn [mkdir_up]. cbv zeta.
  change (rev (c :: rev p)) with (rev (rev p) ++ [c]). rewrite rev_involutive.
  assert (Hnot : is_dir (fs w) (p ++ [c]) = false).
  { unfold is_dir in *. rewrite stat_snoc. by destruct (stat (fs w) p) as [[|?]|?]. }
  assert (Hos : ∃ e, os_mkdir (p ++ [c]) w = (Raise e, w)
                     ∧ (e = FileNotFoundError ∨ e = NotADirectoryError)).
  { unfold os_mkdir, bind, get_fs, raise, parent. simpl. rewrite removelast_last.
    unfold is_dir in Hp. destruct (stat (fs w) p) as [[|?]|e] eqn:E; [done| |].
    - exists NotADirectoryError. split; [done | by right].
    - exists e. split; [done | by apply stat_raises in E]. }
  destruct Hos as (e & -> & [-> | ->]).
  - exists FileNotFoundError. split; [done | by left].
  - exists NotADirectoryError. rewrite Hnot, orb_true_r. split; [done | by right].
Qed.

(** X5: [process] needs the processed directory and does not make it.  When
    the directory does not exist the call raises [FileNotFoundError] or
    [NotADirectoryError] and the world is as before, for every profile. *)
Theorem process_needs_processed_directory c version m w :
  new_manager c version = Ok m →
  is_dir (fs w) (processed_path m) = false →
  ∃ e, method m Process w = (Raise e, w)
       ∧ (e = FileNotFoundError ∨ e = NotADirectoryError).
Proof.
  intros Hm HP. destruct (manager_paths _ _ _ Hm) as (_ & _ & _ & _ & _ & Hk).
  destruct (mkdir_here_below_nothing _ "train" true _ HP) as (e & He & Hk').
  exists e. split; [|done]. unfold method. rewrite Hk.
  destruct c;
    unfold Sleipnir_process, Sorel_process, Windows_process, VirusShare_process,
      _process_into_train_test_split; simpl; unfold bind; by rewrite He.
Qed.

(** X6: a run of the dispatcher with the flags clean and process, and neither
    download nor extract, never returns normally: the name is unknown, or the
    manager cannot be constructed, or [clean] raises, or [clean] has removed
    the processed directory that [process] needs. *)
Theorem main_clean_then_process_raises dataset version w :
  (main dataset true false false true version w).1 ≠ Ok tt.
Proof.
  unfold main. destruct (name_to_manager_map !! dataset) as [c|]; [|done].
  destruct (new_manager c version) as [m|e] eqn:Hm; [|done].
  unfold bind at 1. simpl. unfold bind at 1. simpl. unfold bind at 1.
  unfold call at 1. unfold bind at 1. simpl.
  set (w0 := World (fs w) ((log w ++ [Constructed c]) ++ [Called Clean])).
  destruct (method m Clean w0) as [[[]|e] w1] eqn:Hclean; [|done].
  assert (Hc : c ≠ Windows).
  { intros ->. simpl in Hm. injection Hm as <-. discriminate Hclean. }
  rewrite (clean_is_loop _ _ _ Hm Hc) in Hclean.
  assert (Hgone : fs w1 !! processed_path m = None).
  { eapply for_each_rmtree_gone; [exact Hclean|]. set_solver. }
  cbv beta iota delta [ret bind call emit].
  destruct (process_needs_processed_directory c version m
              (World (fs w1) (log w1 ++ [Called Process])) Hm) as (e & -> & _); [|done].
  simpl. destruct (manager_paths_nonempty _ _ _ Hm) as (_ & _ & HP).
  apply (lookup_None_absent _ _ HP) in Hgone. unfold path_exists, is_dir in *.
  by destruct (stat (fs w1) (processed_path m)) as [[|?]|?].
Qed.

(** ** What [process] leaves alone *)

Lemma keeps_process_outside K m :
  (∀ t, ¬ K (processed_path m ++ t)) →
  respects (keeps K) (_process_into_train_test_split m).
Proof.
  intros HK. unfold _process_into_train_test_split.
  apply respects_bind; preorder; [by apply keeps_mkdir_here|intros _].
  apply respects_bind; preorder; [by apply keeps_mkdir_here|intros _].
  apply respects_bind; preorder; [apply keeps_iterdir|intros files].
  apply respects_bind; preorder; [apply respects_lift; preorder|intros [train test]].
  apply respects_for_each; preorder. intros [ftrain ftest] _.
  apply respects_bind; preorder; [|intros _];
    (apply keeps_copy2; [|intros x; rewrite <- app_assoc]; apply HK).
Qed.

Lemma keeps_Sleipnir_process_outside K m :
  (∀ t, ¬ K (processed_path m ++ t)) →
  respects (keeps K) (Sleipnir_process m).
Proof.
  intros HK. unfold Sleipnir_process.
  apply respects_bind; preorder; [|intros _].
  - apply respects_for_each; preorder. intros split _.
    apply respects_bind; preorder; [by apply keeps_mkdir_here|intros _].
    apply respects_for_each; preorder. intros category _.
    by apply keeps_mkdir_here.
  - apply respects_for_each; preorder. intros category _.
    apply respects_bind; preorder; [apply keeps_iterdir|intros files].
    apply respects_bind; preorder; [apply respects_lift; preorder|intros [train test]].
    apply respects_for_each; preorder. intros [ftrain ftest] _.
    apply respects_bind; preorder; [|intros _];
      (apply keeps_copy2; [|intros x; rewrite <- app_assoc]; apply HK).
Qed.

(** X7: whatever [process] changes lies below the processed directory.  An
    entry anywhere else (the downloads, the extracted samples, the other
    datasets) is stored after the run as before, for every profile and
    however the run ends. *)
Theorem process_changes_only_processed m w q :
  ¬ processed_path m `prefix_of` q →
  fs (method m Process w).2 !! q = fs w !! q.
Proof.
  intros Hq.
  assert (HK : ∀ t, ¬ (λ q, ¬ processed_path m `prefix_of` q) (processed_path m ++ t)).
  { intros t Ht. apply Ht. by apply prefix_app_r. }
  assert (H : respects (keeps (λ q, ¬ processed_path m `prefix_of` q)) (method m Process)).
  { unfold method. destruct (kind m); [by apply keeps_Sleipnir_process_outside | ..];
      by apply keeps_process_outside. }
  by apply H.
Qed.

(** ** [Sorel.extract] *)

Lemma iterdir_world p w : (iterdir p w).2 = w.
Proof.
  unfold iterdir, bind, get_fs, raise, ret. simpl.
  by destruct (stat (fs w) p) as [[|?]|?].
Qed.

Lemma read_file_world p w : (read_file p w).2 = w.
Proof.
  unfold read_file, bind, get_fs, raise, ret. simpl.
  by destruct (stat (fs w) p) as [[|?]|?].
Qed.

(** X8: [Sorel.extract] creates or overwrites files directly in the
    extracted directory and does nothing else: every other entry, the
    compressed downloads among them, is stored after the run as before,
    however the run ends. *)
Theorem Sorel_extract_changes_only_extracted m w q :
  ¬ (q ≠ [] ∧ parent q = extracted_path m) →
  fs (Sorel_extract m w).2 !! q = fs w !! q.
Proof.
  intros Hq.
  assert (H : respects (keeps (λ q, ¬ (q ≠ [] ∧ parent q = extracted_path m)))
                       (Sorel_extract m)).
  { unfold Sorel_extract.
    apply respects_bind; preorder; [apply keeps_iterdir|intros files].
    apply respects_for_each; preorder. intros f _.
    apply respects_bind; preorder; [apply keeps_read_file|intros data].
    apply respects_bind; preorder.
    - destruct (zlib_decompress data); [apply respects_ret | apply respects_raise]; preorder.
    - intros d. apply keeps_write_file. intros Hn. apply Hn. split.
      + by destruct (extracted_path m).
      + unfold parent. apply removelast_last. }
  by apply H.
Qed.

(** X9: [Sorel.extract] does not make the extracted directory.  When it is
    not a directory the run changes nothing, and it returns normally only
    when the downloads directory lists no entry. *)
Theorem Sorel_extract_without_extracted_directory m w :
  is_dir (fs w) (extracted_path m) = false →
  (Sorel_extract m w).2 = w
  ∧ ((Sorel_extract m w).1 = Ok tt → iterdir (downloads_path m) w = (Ok [], w)).
Proof.
  intros HE.
  assert (H : ∃ r, Sorel_extract m w = (r, w)
                   ∧ (r = Ok tt → iterdir (downloads_path m) w = (Ok [], w))).
  { unfold Sorel_extract. unfold bind at 1.
    pose proof (iterdir_world (downloads_path m) w) as Hw.
    destruct (iterdir (downloads_path m) w) as [[files|e] w0]; simpl in Hw; subst w0;
      [|by eexists].
    destruct files as [|f files]; [by eexists|].
    cbn [for_each]. unfold bind at 1. unfold bind at 1.
    pose proof (read_file_world f w) as Hr.
    destruct (read_file f w) as [[data|e] w0]; simpl in Hr; subst w0; [|by eexists].
    unfold bind at 1.
    assert (Hwrite : ∀ d, ∃ e,
               write_file (extracted_path m ++ [name_of f]) d w = (Raise e, w)).
    { intros d. unfold write_file, bind, get_fs, raise, parent. simpl.
      rewrite removelast_last. unfold is_dir in HE.
      destruct (stat (fs w) (extracted_path m)) as [[|?]|?]; by eauto. }
    destruct (zlib_decompress data) as [d|]; simpl; [|by eexists].
    destruct (Hwrite d) as (e & ->). by eexists. }
  destruct H as (r & -> & Hr). by split.
Qed.

(** ** [main] and the version *)

(** The dataset [VirusShare] needs a version.  Without one the
    construction of the manager raises [TypeError]; no operation is called
    and the world is as it was, whatever the flags. *)
Theorem main_VirusShare_needs_version (clean download extract process : bool) w :
  main "VirusShare" clean download extract process None w = (Raise TypeError, w).
Proof. reflexivity. Qed.

(** X10: every dataset but [VirusShare] ignores the version: a run of the
    dispatcher with a version is the run without it. *)
Theorem main_ignores_version dataset (clean download extract process : bool) version w :
  dataset ≠ "VirusShare" →
  main dataset clean download extract process version w
  = main dataset clean download extract process None w.
Proof.
  intros Hd. unfold main, name_to_manager_map.
  destruct (decide (dataset = "SLEIPNIR")) as [->|H1]; [done|].
  rewrite (lookup_insert_ne _ "SLEIPNIR") by done.
  rewrite (lookup_insert_ne _ "VirusShare") by done.
  destruct (decide (dataset = "Sorel")) as [->|H3]; [done|].
  rewrite (lookup_insert_ne _ "Sorel") by done.
  destruct (decide (dataset = "Windows")) as [->|H4]; [done|].
  by rewrite (lookup_insert_ne _ "Windows"), lookup_empty by done.
Qed.

(** ** Listings *)

Lemma bind_ok {A B} (m : M A) (k : A → M B) w b w' :
  bind m k w = (Ok b, w') → ∃ a w1, m w = (Ok a, w1) ∧ k a w1 = (Ok b, w').
Proof.
  unfold bind. destruct (m w) as [[a|e] w1]; [|done]. intros H. by exists a, w1.
Qed.

Lemma child_snoc (p q : path) :
  q ≠ [] → parent q = p → q = p ++ [name_of q].
Proof. intros Hq <-. by apply app_removelast_last. Qed.

Lemma children_spec f p q :
  q ∈ children f p ↔ (q ≠ [] ∧ parent q = p) ∧ is_Some (f !! q).
Proof.
  unfold children. rewrite list_elem_of_In, filter_In, <- list_elem_of_In.
  unfold is_child_of. rewrite bool_decide_eq_true, list_elem_of_fmap. split.
  - intros [([k n] & -> & Hk) Hc]. split; [done|].
    apply elem_of_map_to_list in Hk. by exists n.
  - intros [Hc [n Hn]]. split; [|done]. exists (q, n). split; [done|].
    by apply elem_of_map_to_list.
Qed.

Lemma children_NoDup f p : NoDup (children f p).
Proof.
  unfold children. apply NoDup_ListNoDup, List.NoDup_filter, NoDup_ListNoDup.
  apply NoDup_fst_map_to_list.
Qed.

(** The listing of a directory depends on its entries only. *)
Lemma children_agree f g p :
  (∀ q, q ≠ [] → parent q = p → f !! q = g !! q) →
  children f p ≡ₚ children g p.
Proof.
  intros H. apply NoDup_Permutation; try apply children_NoDup.
  intros q. rewrite !children_spec. split; intros [[Hq Hp] Hs];
    (split; [done|]); [rewrite <- H | rewrite H]; done.
Qed.

Lemma iterdir_ok p w files w' :
  iterdir p w = (Ok files, w') →
  w' = w ∧ files = scandir_order (children (fs w) p) ∧ stat (fs w) p = Ok Dir.
Proof.
  unfold iterdir, bind, get_fs, raise, ret. simpl.
  destruct (stat (fs w) p) as [[|?]|?]; try done. by intros [= <- <-].
Qed.

Lemma for_each_rmtree_keeps_stat ps q w w' :
  (∀ p, p ∈ ps → ¬ p `prefix_of` q) →
  for_each ps rmtree w = (Ok tt, w') →
  stat (fs w') q = stat (fs w) q.
Proof.
  intros Hps H. apply stat_agree. intros t Ht.
  eapply (respects_run (keeps (λ t, t `prefix_of` q))); [|exact H|exact Ht].
  apply respects_for_each; preorder. intros p Hp. apply keeps_rmtree.
  intros t' Ht' Hpt. apply (Hps p Hp). by etransitivity.
Qed.

(** ** [Windows.extract] *)

(** X11: a [Windows.extract] that returns leaves the downloads directory in
    place and empty: what was not moved to the extracted directory has been
    removed. *)
Theorem Windows_extract_empties_downloads m w w' :
  (∀ l, scandir_order l ≡ₚ l) →
  Windows_extract m w = (Ok tt, w') →
  is_dir (fs w') (downloads_path m) = true
  ∧ children (fs w') (downloads_path m) = [].
Proof.
  intros Hperm H. unfold Windows_extract in H.
  apply bind_ok in H as ([] & w1 & _ & H).
  apply bind_ok in H as (found & w2 & _ & H).
  apply bind_ok in H as ([] & w3 & _ & H).
  apply bind_ok in H as (rest & w4 & Hiter & H).
  apply iterdir_ok in Hiter as (-> & -> & Hdir).
  assert (Hrest : ∀ p, p ∈ scandir_order (children (fs w3) (downloads_path m)) →
                       (p ≠ [] ∧ parent p = downloads_path m) ∧ is_Some (fs w3 !! p)).
  { intros p Hp. rewrite Hperm in Hp. by apply children_spec. }
  split.
  - assert (Hapart : ∀ p, p ∈ scandir_order (children (fs w3) (downloads_path m)) →
                          ¬ p `prefix_of` downloads_path m).
    { intros p Hp Hpre. apply Hrest in Hp as [[Hne Hpar] _].
      rewrite (child_snoc _ _ Hne Hpar) in Hpre. by apply prefix_snoc_not in Hpre. }
    unfold is_dir. by rewrite (for_each_rmtree_keeps_stat _ _ _ _ Hapart H), Hdir.
  - destruct (children (fs w') (downloads_path m)) as [|q l] eqn:E; [done|]. exfalso.
    assert (Hq : q ∈ children (fs w') (downloads_path m)) by (rewrite E; left).
    apply children_spec in Hq as [Hc [n Hn]].
    assert (Hs : shrinks w3 w').
    { eapply respects_run; [|exact H]. apply respects_for_each; preorder.
      intros x _. apply rmtree_shrinks. }
    assert (Hin : q ∈ scandir_order (children (fs w3) (downloads_path m))).
    { rewrite Hperm. apply children_spec. split; [done|]. exists n.
      by eapply lookup_weaken. }
    rewrite (for_each_rmtree_gone _ _ _ H q Hin) in Hn. done.
Qed.

Lemma substring_whole (b : string) : substring 0 (String.length b) b = b.
Proof. induction b as [|c b IH]; simpl; [done | by rewrite IH]. Qed.





(** ** The samples that [process] handles *)

Lemma wrote_count_app l1 l2 : wrote_count (l1 ++ l2) = wrote_count l1 + wrote_count l2.
Proof. unfold wrote_count. by rewrite List.filter_app, length_app. Qed.

Lemma wrote_count_quiet l :
  Forall (λ e, ∀ p, e ≠ Wrote p) l → wrote_count l = 0%nat.
Proof.
  induction 1 as [|e l He _ IH]; [done|].
  destruct e; try exact IH. by destruct (He p).
Qed.

(** A mkdir writes no file. *)
Lemma Path_mkdir_wrote_count p parents exist_ok w :
  wrote_count (log (Path_mkdir p parents exist_ok w).2) = wrote_count (log w).
Proof.
  destruct (appends_Path_mkdir (λ e, ∀ p, e ≠ Wrote p)) with
    (p := p) (parents := parents) (exist_ok := exist_ok) (w := w) as (l & -> & Hl);
    [done|].
  by rewrite wrote_count_app, (wrote_count_quiet l Hl), Nat.add_0_r.
Qed.

Lemma write_file_wrote_count p c w :
  (wrote_count (log (write_file p c w).2) ≤ wrote_count (log w) + 1)%nat.
Proof.
  unfold write_file, bind, get_fs, raise, put_fs, emit. simpl.
  destruct (stat (fs w) (parent p)) as [[|?]|?]; simpl; try lia.
  destruct (entry (fs w) p) as [[|?]|]; simpl;
    unfold wrote_count; rewrite ?List.filter_app, ?length_app; simpl; lia.
Qed.

(** A copy writes one file at most. *)
Lemma copy2_wrote_count src dst w :
  (wrote_count (log (copy2 src dst w).2) ≤ wrote_count (log w) + 1)%nat.
Proof.
  unfold copy2. unfold bind at 1. unfold get_fs. cbv zeta.
  destruct (bool_decide _ && path_exists (fs w) src); simpl; [lia|].
  unfold bind. pose proof (read_file_world src w) as Hr.
  destruct (read_file src w) as [[c|?] w0]; simpl in Hr; subst w0; simpl; [|lia].
  apply write_file_wrote_count.
Qed.

Lemma copy_loop_wrote_count (pairs : list (path * path)) train test w :
  (wrote_count
     (log (for_each pairs (λ ff, copy2 (fst ff) train ;; copy2 (snd ff) test) w).2)
   ≤ wrote_count (log w) + 2 * length pairs)%nat.
Proof.
  revert w. induction pairs as [|[a b] pairs IH]; intros w; simpl; [lia|].
  unfold bind at 1. unfold bind at 1.
  pose proof (copy2_wrote_count a train w) as Ha.
  destruct (copy2 a train w) as [[[]|?] w1]; simpl in Ha; [|simpl; lia].
  pose proof (copy2_wrote_count b test w1) as Hb.
  destruct (copy2 b test w1) as [[[]|?] w2]; simpl in Hb; [|simpl; lia].
  specialize (IH w2). lia.
Qed.

(** The two mkdirs of [process] leave the listing of the extracted
    directory as it is. *)
Lemma mkdir_keeps_extracted c version m t w :
  new_manager c version = Ok m →
  let w' := (Path_mkdir (processed_path m ++ t) false true w).2 in
  children (fs w') (extracted_path m) ≡ₚ children (fs w) (extracted_path m)
  ∧ stat (fs w') (extracted_path m) = stat (fs w) (extracted_path m).
Proof.
  intros Hm w'.
  assert (H : keeps (comparable (extracted_path m)) w w').
  { apply keeps_mkdir_here. by eapply processed_apart. }
  split.
  - apply children_agree. intros q Hq Hp. apply H. left.
    rewrite (child_snoc _ _ Hq Hp). by apply prefix_app_r.
  - apply stat_agree. intros q Hq. apply H. by right.
Qed.

(** X13: with [N] entries in the extracted directory, [process] writes at
    most [2 * ceil(N / 4)] files, two for each pair of [zip(train, test)];
    with three entries or more it writes fewer files than there are
    samples. *)
Theorem process_writes_at_most c version m w :
  (∀ l, scandir_order l ≡ₚ l) →
  (∀ l, shuffle l ≡ₚ l) →
  new_manager c version = Ok m →
  c ≠ Sleipnir →
  (wrote_count (log (method m Process w).2)
   ≤ wrote_count (log w)
     + 2 * ((length (children (fs w) (extracted_path m)) + 3) / 4))%nat
  ∧ ((3 ≤ length (children (fs w) (extracted_path m)))%nat →
     (wrote_count (log (method m Process w).2) - wrote_count (log w)
      < length (children (fs w) (extracted_path m)))%nat).
Proof.
  intros Hscan Hshuffle Hm Hc.
  set (N := length (children (fs w) (extracted_path m))).
  assert (Hbound : (wrote_count (log (method m Process w).2)
                    ≤ wrote_count (log w) + 2 * ((N + 3) / 4))%nat).
  { destruct (manager_paths _ _ _ Hm) as (_ & _ & _ & _ & _ & Hk).
    assert (method m Process = _process_into_train_test_split m) as ->.
    { unfold method. rewrite Hk. by destruct c. }
    unfold _process_into_train_test_split. unfold bind at 1.
    pose proof (Path_mkdir_wrote_count (processed_path m ++ ["train"]) false true w) as H1.
    destruct (mkdir_keeps_extracted c version m ["train"] w Hm) as [Hc1 _].
    destruct (Path_mkdir (processed_path m ++ ["train"]) false true w) as [[[]|?] w1];
      cbn [snd] in *; [|lia].
    unfold bind at 1.
    pose proof (Path_mkdir_wrote_count (processed_path m ++ ["test"]) false true w1) as H2.
    destruct (mkdir_keeps_extracted c version m ["test"] w1 Hm) as [Hc2 _].
    destruct (Path_mkdir (processed_path m ++ ["test"]) false true w1) as [[[]|?] w2];
      cbn [snd] in *; [|lia].
    unfold bind at 1.
    destruct (iterdir (extracted_path m) w2) as [[files|?] w3] eqn:Hiter.
    2:{ pose proof (iterdir_world (extracted_path m) w2) as Hw.
        rewrite Hiter in Hw. cbn [snd] in *. subst. lia. }
    apply iterdir_ok in Hiter as (-> & -> & _).
    assert (Hlen : length (scandir_order (children (fs w2) (extracted_path m))) = N).
    { by rewrite Hscan, Hc2, Hc1. }
    unfold bind at 1.
    destruct (train_test_split _) as [[train test]|?] eqn:Hsplit;
      cbn [lift ret raise snd fst]; [|lia].
    apply train_test_split_lengths in Hsplit as (_ & _ & Hpairs);
      [|by rewrite Hshuffle].
    rewrite Hlen in Hpairs.
    pose proof (copy_loop_wrote_count (combine train test)
                  (processed_path m ++ ["train"]) (processed_path m ++ ["test"]) w2) as Hl.
    rewrite Hpairs in Hl. lia. }
  split; [exact Hbound|]. intros HN.
  pose proof (Nat.div_mod_eq (N + 3) 4) as Hdiv.
  pose proof (Nat.mod_upper_bound (N + 3) 4) as Hmod.
  fold N. set (k := (N + 3) / 4) in *. lia.
Qed.

(** A mkdir with [exist_ok] and without [parents] below a directory returns
    unless a file has the name. *)
Lemma mkdir_here_returns p c w :
  stat (fs w) p = Ok Dir →
  (∀ content, fs w !! (p ++ [c]) ≠ Some (File content)) →
  ∃ w', Path_mkdir (p ++ [c]) false true w = (Ok tt, w')
        ∧ stat (fs w') (p ++ [c]) = Ok Dir
        ∧ grows_towards (p ++ [c]) w w'.
Proof.
  intros Hp Hfile.
  pose proof (grows_Path_mkdir (p ++ [c]) false true w) as Hg.
  destruct (Path_mkdir (p ++ [c]) false true w) as [r w'] eqn:E. simpl in Hg.
  exists w'. unfold Path_mkdir in E. rewrite rev_unit in E. cbn [mkdir_up] in E.
  cbv zeta in E. change (rev (c :: rev p)) with (rev (rev p) ++ [c]) in E.
  rewrite rev_involutive, os_mkdir_below_dir in E by done.
  destruct (fs w !! (p ++ [c])) as [[|content]|] eqn:El.
  - unfold is_dir in E. rewrite stat_snoc, Hp, El in E. simpl in E.
    injection E as <- <-. simpl. by rewrite stat_snoc, Hp, El.
  - by destruct (Hfile content).
  - simpl in E. injection E as <- <-. simpl. split; [done|]. split; [|done].
    by apply stat_insert_below.
Qed.

(** X14: with fewer than two entries in the extracted directory, [process]
    raises the [ValueError] of the splitter; it has made the [train] and
    [test] directories by then. *)
Theorem process_raises_on_fewer_than_two_samples c version m w :
  (∀ l, scandir_order l ≡ₚ l) →
  new_manager c version = Ok m →
  c ≠ Sleipnir →
  is_dir (fs w) (processed_path m) = true →
  (∀ content, fs w !! (processed_path m ++ ["train"]) ≠ Some (File content)) →
  (∀ content, fs w !! (processed_path m ++ ["test"]) ≠ Some (File content)) →
  is_dir (fs w) (extracted_path m) = true →
  (length (children (fs w) (extracted_path m)) < 2)%nat →
  ∃ msg w',
    method m Process w = (Raise (ValueError msg), w')
    ∧ is_dir (fs w') (processed_path m ++ ["train"]) = true
    ∧ is_dir (fs w') (processed_path m ++ ["test"]) = true.
Proof.
  intros Hscan Hm Hc HP Htrain Htest HE HN.
  assert (Hdir : ∀ f p, is_dir f p = true → stat f p = Ok Dir).
  { unfold is_dir. intros f p. by destruct (stat f p) as [[|?]|?]. }
  apply Hdir in HP, HE.
  destruct (manager_paths _ _ _ Hm) as (_ & _ & _ & _ & _ & Hk).
  assert (method m Process = _process_into_train_test_split m) as ->.
  { unfold method. rewrite Hk. by destruct c. }
  unfold _process_into_train_test_split.
  destruct (mkdir_keeps_extracted c version m ["train"] w Hm) as [Hc1 Hs1].
  destruct (mkdir_here_returns _ "train" w HP Htrain) as (w1 & E1 & Hd1 & Hg1).
  rewrite E1 in Hc1, Hs1. cbn [snd] in Hc1, Hs1.
  destruct (mkdir_keeps_extracted c version m ["test"] w1 Hm) as [Hc2 Hs2].
  destruct (mkdir_here_returns (processed_path m) "test" w1) as (w2 & E2 & Hd2 & Hg2).
  { eapply stat_mono; [|exact HP]. by apply (grows_subseteq _ _ _ Hg1). }
  { intros content Hf. destruct (Hg1 (processed_path m ++ ["test"])) as [Heq|(_ & Hn & _)].
    - rewrite Heq in Hf. by apply (Htest content).
    - congruence. }
  rewrite E2 in Hc2, Hs2. cbn [snd] in Hc2, Hs2.
  unfold bind at 1. rewrite E1. unfold bind at 1. rewrite E2. unfold bind at 1.
  unfold iterdir at 1. unfold bind at 1. unfold get_fs at 1. cbn [fst snd].
  rewrite Hs2, Hs1, HE. unfold ret at 1. unfold bind at 1.
  assert (Hlen : (length (scandir_order (children (fs w2) (extracted_path m))) < 2)%nat).
  { by rewrite Hscan, Hc2, Hc1. }
  assert (Hsplit : ∃ msg, train_test_split
                            (scandir_order (children (fs w2) (extracted_path m)))
                          = Raise (ValueError msg)).
  { unfold train_test_split.
    destruct (length (scandir_order (children (fs w2) (extracted_path m))))
      as [|[|n]]; [by eexists | by eexists | lia]. }
  destruct Hsplit as (msg & ->). exists msg, w2. split; [done|].
  unfold is_dir. rewrite Hd2. split; [|done].
  by rewrite (stat_mono _ _ _ _ (grows_subseteq _ _ _ Hg2) Hd1).
Qed.

(** ** What [Sorel.extract] writes *)

Lemma write_file_ok p c w w' :
  write_file p c w = (Ok tt, w') → fs w' = <[p := File c]> (fs w).
Proof.
  unfold write_file, bind, get_fs, raise, put_fs, emit. simpl.
  destruct (stat (fs w) (parent p)) as [[|?]|?]; try done.
  destruct (entry (fs w) p) as [[|?]|]; try done; by intros [= <-].
Qed.

Lemma read_file_ok p w data w' :
  read_file p w = (Ok data, w') → w' = w ∧ stat (fs w) p = Ok (File data).
Proof.
  unfold read_file, bind, get_fs, raise, ret. simpl.
  destruct (stat (fs w) p) as [[|?]|?]; try done. by intros [= <- <-].
Qed.

(** The loop of [Sorel.extract] over a list of distinct entries of the
    downloads directory. *)
Lemma Sorel_extract_loop m (files : list path) w w' :
  downloads_path m ≠ extracted_path m →
  NoDup files →
  (∀ g, g ∈ files → g ≠ [] ∧ parent g = downloads_path m) →
  for_each files
    (λ f,
       data <- read_file f ;;
       decompressed <-
         match zlib_decompress data with
         | Some d => ret d
         | None => raise ZlibError
         end ;;
       write_file (extracted_path m ++ [name_of f]) decompressed) w
  = (Ok tt, w') →
  ∀ f data,
    f ∈ files → fs w !! f = Some (File data) →
    ∃ d, zlib_decompress data = Some d
         ∧ fs w' !! (extracted_path m ++ [name_of f]) = Some (File d).
Proof.
  intros Hne. revert w. induction files as [|g files IH]; intros w Hnd Hch H f data Hf Hl.
  - by apply elem_of_nil in Hf.
  - apply NoDup_cons in Hnd as [Hg Hnd]. cbn [for_each] in H.
    apply bind_ok in H as ([] & w1 & Hbody & Hrest).
    apply bind_ok in Hbody as (data' & w0 & Hread & Hbody).
    apply read_file_ok in Hread as [-> Hstat].
    apply bind_ok in Hbody as (d & w0 & Hz & Hwrite).
    destruct (zlib_decompress data') as [d'|] eqn:Ez; [|done].
    injection Hz as <- <-. apply write_file_ok in Hwrite.
    assert (Hparent : ∀ h, h ∈ g :: files → h ≠ extracted_path m ++ [name_of g]).
    { intros h Hh ->. destruct (Hch _ Hh) as [_ Hp]. unfold parent in Hp.
      rewrite removelast_last in Hp. congruence. }
    apply elem_of_cons in Hf as [->|Hf].
    + destruct (Hch g) as [Hgne Hgp]; [left|].
      apply stat_lookup in Hstat; [|done]. rewrite Hl in Hstat.
      injection Hstat as ->. exists d'. split; [done|].
      assert (Hk : keeps (λ q, q = extracted_path m ++ [name_of g]) w1 w').
      { eapply respects_run; [|exact Hrest].
        apply respects_for_each; preorder. intros h Hh.
        apply respects_bind; preorder; [apply keeps_read_file|intros ?].
        apply respects_bind; preorder.
        - destruct (zlib_decompress a); [apply respects_ret | apply respects_raise];
            preorder.
        - intros ?. apply keeps_write_file. intros Heq.
          apply app_inj_tail in Heq as [_ Heq].
          destruct (Hch h) as [Hhne Hhp]; [by right|].
          assert (h = g) as ->; [|done].
          rewrite (child_snoc _ _ Hhne Hhp), (child_snoc _ _ Hgne Hgp). by rewrite Heq. }
      rewrite (Hk _ eq_refl), Hwrite. apply lookup_insert_eq.
    + apply (IH w1); try done.
      * intros h Hh. apply Hch. by right.
      * rewrite Hwrite, lookup_insert_ne; [done|].
        intros Heq. by apply (Hparent f); [right|].
Qed.

(** X15: a [Sorel.extract] that returns has decompressed every download.
    For each file of the downloads directory, the extracted directory holds a
    file of the same name whose content is the decompressed content. *)
Theorem Sorel_extract_decompresses w w' f data :
  (∀ l, scandir_order l ≡ₚ l) →
  Sorel_extract Sorel_init w = (Ok tt, w') →
  f ≠ [] →
  parent f = downloads_path Sorel_init →
  fs w !! f = Some (File data) →
  ∃ d, zlib_decompress data = Some d
       ∧ fs w' !! (extracted_path Sorel_init ++ [name_of f]) = Some (File d).
Proof.
  intros Hscan H Hf Hp Hl. unfold Sorel_extract in H.
  apply bind_ok in H as (files & w0 & Hiter & H).
  apply iterdir_ok in Hiter as (-> & -> & _).
  eapply (Sorel_extract_loop Sorel_init); [done| | |exact H| |exact Hl].
  - rewrite Hscan. apply children_NoDup.
  - intros g Hg. rewrite Hscan in Hg. by apply children_spec in Hg as [? _].
  - rewrite Hscan. apply children_spec. split; [done|]. by eexists.
Qed.

(** * The paper collection *)

(** ** [rename] *)

Lemma append_cons (x : ascii) (a b : string) : String x a +:+ b = String x (a +:+ b).
Proof. reflexivity. Qed.


Lemma append_empty_r (a : string) : a +:+ "" = a.
Proof. induction a as [|x a IH]; [done|]. rewrite append_cons. by f_equal. Qed.






















(** ** [clean_paper_collection] *)

Lemma substring_split (k : nat) (s : string) :
  (k ≤ String.length s)%nat →
  substring 0 k s +:+ substring k (String.length s - k) s = s.
Proof.
  revert k. induction s as [|c s IH]; intros [|k] Hk; simpl in *; try lia; try done.
  - by rewrite substring_whole.
  - rewrite append_cons. f_equal. apply IH. lia.
Qed.

Lemma length_substring_tail (i : nat) (s : string) :
  (i ≤ String.length s)%nat →
  String.length (substring i (String.length s - i) s) = (String.length s - i)%nat.
Proof.
  revert i. induction s as [|c s IH]; intros [|i] Hi; simpl in *; try lia; try done.
  - by rewrite substring_whole.
  - apply IH. lia.
Qed.

(** A name is its stem followed by its suffix. *)
Lemma stem_suffix (name : string) : stem_of name +:+ suffix_of name = name.
Proof.
  unfold stem_of, suffix_of. destruct (rfind_dot name) as [i|].
  - destruct ((0 <? i)%nat && (i <? String.length name - 1)%nat)%bool eqn:E.
    + apply andb_prop in E as [_ E]. apply Nat.ltb_lt in E.
      rewrite length_substring_tail by lia.
      replace (String.length name - (String.length name - i))%nat with i by lia.
      apply substring_split. lia.
    + simpl. rewrite Nat.sub_0_r, substring_whole. apply append_empty_r.
  - simpl. rewrite Nat.sub_0_r, substring_whole. apply append_empty_r.
Qed.

(** The script maps a path with a final name to itself. *)
Lemma with_stem_final (f : path) :
  f ≠ [] → final_name (name_of f) →
  with_stem f (rename (stem_of (name_of f))) = Ok f.
Proof.
  intros Hf (Hne & Hdot & Hslash & Hre). unfold with_stem, with_name.
  rewrite Hre, stem_suffix.
  destruct (String.eqb_spec (name_of f) "") as [|_]; [done|].
  destruct (String.eqb_spec (name_of f) ".") as [E|_].
  { rewrite E in Hdot. done. }
  rewrite Hslash. simpl. f_equal. symmetry. by apply child_snoc.
Qed.

Lemma for_each_unchanged {A} (xs : list A) (body : A → M unit) w :
  (∀ x, x ∈ xs → body x w = (Ok tt, w)) → for_each xs body w = (Ok tt, w).
Proof.
  induction xs as [|x xs IH]; intros Hb; simpl; [done|].
  unfold bind. rewrite Hb by left. apply IH. intros y Hy. apply Hb. by right.
Qed.

(** X18: [clean_paper_collection] is a no-op on a clean collection.  When
    every entry of the papers directory has a final name (not hidden, with a
    stem that [rename] maps to itself), the script returns and leaves the
    filesystem as it was. *)
Theorem clean_paper_collection_keeps_final_names w :
  (∀ l, scandir_order l ≡ₚ l) →
  is_dir (fs w) papers_path = true →
  (∀ f, f ∈ children (fs w) papers_path → final_name (name_of f)) →
  ∃ w', clean_paper_collection w = (Ok tt, w') ∧ fs w' = fs w.
Proof.
  intros Hperm Hdir Hfinal. exists w. split; [|done].
  unfold is_dir in Hdir.
  destruct (stat (fs w) papers_path) as [[|?]|?] eqn:Hstat; try done.
  unfold clean_paper_collection, bind at 1, iterdir, bind, get_fs. simpl.
  rewrite Hstat. simpl.
  apply for_each_unchanged. intros f Hf. rewrite Hperm in Hf.
  pose proof (Hfinal f Hf) as Hfin.
  apply children_spec in Hf as [[Hne Hpar] [n Hn]].
  destruct Hfin as (Hname & Hdot & Hrest). rewrite Hdot.
  rewrite with_stem_final by done. simpl.
  unfold os_replace. rewrite bool_decide_eq_true_2 by done.
  unfold bind, get_fs. simpl.
  rewrite (child_snoc _ _ Hne Hpar), stat_snoc, Hstat.
  rewrite <- (child_snoc _ _ Hne Hpar), Hn. done.
Qed.

Lemma move_tree_lookup_other src dst f q :
  ¬ src `prefix_of` q → ¬ dst `prefix_of` q → move_tree src dst f !! q = f !! q.
Proof.
  intros Hsrc Hdst. unfold move_tree. rewrite lookup_union_r.
  - destruct (f !! q) as [n|] eqn:E.
    + by apply map_lookup_filter_Some_2.
    + apply map_lookup_filter_None. left. done.
  - apply not_elem_of_list_to_map_1. intros Hin.
    apply list_elem_of_fmap in Hin as ([k n] & -> & Hin).
    apply list_elem_of_omap in Hin as (t & _ & Ht).
    destruct (f !! t); [|done]. simpl in Ht. injection Ht as <- _.
    apply Hdst. simpl. by apply prefix_app_r.
Qed.

Section KeepsRename.
Variable K : path → Prop.

Lemma keeps_unlink p : ¬ K p → respects (keeps K) (unlink p).
Proof.
  intros HK w q Hq. unfold unlink, bind, get_fs, put_fs, raise. simpl.
  destruct (stat (fs w) p) as [[|c]|e]; simpl; try done.
  apply lookup_delete_ne. by intros ->.
Qed.

Lemma keeps_Path_replace src dst :
  (∀ t, src `prefix_of` t → ¬ K t) → (∀ t, dst `prefix_of` t → ¬ K t) →
  respects (keeps K) (Path_replace src dst).
Proof.
  intros Hsrc Hdst w q Hq. unfold Path_replace, bind, get_fs, put_fs, emit, raise. simpl.
  assert (Hq1 : ¬ src `prefix_of` q) by (intros H; by apply (Hsrc q)).
  assert (Hq2 : ¬ dst `prefix_of` q) by (intros H; by apply (Hdst q)).
  assert (Hfile : ∀ c, (<[dst := File c]> (delete src (fs w))) !! q = fs w !! q).
  { intros c. rewrite lookup_insert_ne, lookup_delete_ne; [done| |]; by intros ->. }
  destruct (stat (fs w) src) as [[|c]|e]; simpl; try done;
    destruct (stat (fs w) (parent dst)) as [[|c']|e']; simpl; try done;
    destruct (entry (fs w) dst) as [[|c'']|]; simpl; try done;
    try (by apply move_tree_lookup_other).
  destruct (bool_decide _); simpl; [|done]. by apply move_tree_lookup_other.
Qed.

Lemma keeps_os_replace src dst :
  (∀ t, src `prefix_of` t → ¬ K t) → (∀ t, dst `prefix_of` t → ¬ K t) →
  respects (keeps K) (os_replace src dst).
Proof.
  intros Hsrc Hdst. unfold os_replace. destruct (bool_decide (src = dst)).
  - intros w q _. unfold bind, get_fs, raise, ret. simpl.
    by destruct (stat (fs w) src).
  - by apply keeps_Path_replace.
Qed.
End KeepsRename.

Lemma with_stem_sibling p stem d :
  with_stem p stem = Ok d → ∃ x, d = parent p ++ [x].
Proof.
  unfold with_stem, with_name. destruct (String.eqb _ _); [done|].
  destruct (_ || _ || _); [done|]. intros [= <-]. by eexists.
Qed.

(** X19: whatever [clean_paper_collection] removes or renames lies below
    the papers directory.  An entry that is not strictly below it is after
    the run what it was before, whether the run returns or raises. *)
Theorem clean_paper_collection_changes_only_papers w q :
  (∀ l, scandir_order l ≡ₚ l) →
  is_below papers_path q = false →
  fs (clean_paper_collection w).2 !! q = fs w !! q.
Proof.
  intros Hperm Hq. apply bool_decide_eq_false in Hq.
  set (K := λ t : path, ¬ (papers_path `prefix_of` t ∧ t ≠ papers_path)).
  assert (Hbelow : ∀ x t, (papers_path ++ [x]) `prefix_of` t → ¬ K t).
  { intros x t [k ->] HK. apply HK. split.
    - rewrite <- app_assoc. by apply prefix_app_r.
    - rewrite <- app_assoc. intros H. apply (f_equal length) in H.
      rewrite !length_app in H. simpl in H. lia. }
  enough (H : respects (keeps K) clean_paper_collection) by exact (H w q Hq).
  clear w q Hq. intros w. unfold clean_paper_collection, bind at 1.
  destruct (iterdir papers_path w) as [[files|e] w1] eqn:E.
  - apply iterdir_ok in E as (-> & -> & _).
    apply respects_for_each; preorder. intros f Hf. rewrite Hperm in Hf.
    apply children_spec in Hf as [[Hne Hpar] _].
    assert (Hf : ∀ t, f `prefix_of` t → ¬ K t).
    { rewrite (child_snoc _ _ Hne Hpar). apply Hbelow. }
    destruct (starts_with_dot (name_of f)).
    + apply keeps_unlink, Hf. done.
    + apply respects_bind_lift; preorder. intros d Hd.
      apply with_stem_sibling in Hd as [x ->]. rewrite Hpar.
      apply keeps_os_replace; [exact Hf | apply Hbelow].
  - pose proof (iterdir_world papers_path w) as Hw. rewrite E in Hw. simpl in Hw.
    subst w1. simpl. reflexivity.
Qed.

End Program.

(** * The claims on the sample inputs *)

(** C8: the name under which [Windows.extract] stores an executable is a
    function of its path alone.  Two runs, on any two filesystems and with
    any two orders of listing, that both move the path [p] move it to the same
    place, the one that [hashed_target] computes from the SHA-224 digest of
    the path. *)
Theorem extract_name_is_function_of_path
    (order1 order2 : list path → list path) (sha224_hexdigest : list Byte.byte → string)
    (f1 f2 : filesystem) (p d1 d2 : path) :
  Renamed p d1 ∈ log (Windows_extract order1 sha224_hexdigest Windows_init (World f1 [])).2 →
  Renamed p d2 ∈ log (Windows_extract order2 sha224_hexdigest Windows_init (World f2 [])).2 →
  hashed_target sha224_hexdigest Windows_init p = Ok d1 ∧ d1 = d2.
Proof.
  intros H1 H2.
  apply (extract_renames_to_hashed_target
           order1 shuffle_identity zlib_stored sha224_hexdigest subprocess_idle) in H1.
  apply (extract_renames_to_hashed_target
           order2 shuffle_identity zlib_stored sha224_hexdigest subprocess_idle) in H2.
  split; [done | congruence].
Qed.

Lemma extract_name_is_function_of_path_witness :
  Renamed calc_exe calc_exe_hashed
    ∈ log (Windows_extract scan_in_map_order sha224_constant Windows_init
             windows_downloaded).2
  ∧ hashed_target sha224_constant Windows_init calc_exe = Ok calc_exe_hashed
  ∧ calc_exe_hashed = calc_exe_hashed.
Proof.
  assert (H : ∀ order,
             order = scan_in_map_order ∨ order = shuffle_reverse →
             Renamed calc_exe calc_exe_hashed
               ∈ log (Windows_extract order sha224_constant Windows_init
                        (World (fs windows_downloaded) [])).2).
  { intros order [->| ->]; apply (bool_decide_unpack _); vm_compute; exact I. }
  split; [apply H; by left|].
  apply (extract_name_is_function_of_path scan_in_map_order shuffle_reverse sha224_constant
           (fs windows_downloaded) (fs windows_downloaded)
           calc_exe calc_exe_hashed calc_exe_hashed);
    apply H; [by left | by right].
Defined.

(** Closed goals about the sample inputs are settled by evaluation. *)
Ltac evaluate :=
  lazymatch goal with
  | |- _ ∧ _ => split; evaluate
  | |- _ = _ => vm_compute; reflexivity
  | |- _ => apply (bool_decide_unpack _); vm_compute; exact I
  end.

(** A run whose result is [Ok a] is the pair of [Ok a] and its final world. *)
Lemma run_returns {A} (x : result A * world) (a : A) : x.1 = Ok a → x = (Ok a, x.2).
Proof. destruct x as [r w]. simpl. by intros ->. Qed.

(** The program run with the sample parameters. *)
Abbreviation sample_method :=
  (method scan_in_map_order shuffle_identity zlib_stored sha224_constant subprocess_idle).

Abbreviation sample_main :=
  (main scan_in_map_order shuffle_identity zlib_stored sha224_constant subprocess_idle).

(** C1: on the ten files [a.bin] .. [j.bin], [process] returns normally and
    has placed three files under [train] and three under [test]; the four
    other files are in neither, with either shuffle.  The loop runs over
    [zip(train, test)], which stops with the shorter of the two lists. *)
Theorem process_leaves_samples_out :
  Forall
    (λ shuffle,
       let r := Sorel_process scan_in_map_order shuffle Sorel_init ten_samples in
       let extracted := listing (fs ten_samples) (extracted_path Sorel_init) in
       let train := listing (fs r.2) (processed_path Sorel_init ++ ["train"]) in
       let test := listing (fs r.2) (processed_path Sorel_init ++ ["test"]) in
       r.1 = Ok tt
       ∧ extracted ≡ₚ ten_names
       ∧ length (train ++ test) = 6%nat
       ∧ length (list_difference extracted (train ++ test)) = 4%nat)
    [shuffle_identity; shuffle_reverse].
Proof.
  apply Forall_cons_2; [|apply Forall_cons_2; [|apply Forall_nil_2]];
    cbv beta zeta; evaluate.
Qed.

(** C2: on the same ten files the library splits seven to three, and
    [process] places three files under [train] and three under [test]: as
    many training files as test files, not three times as many. *)
Theorem process_places_as_many_train_as_test :
  Forall
    (λ shuffle,
       let r := Sorel_process scan_in_map_order shuffle Sorel_init ten_samples in
       let files := children (fs ten_samples) (extracted_path Sorel_init) in
       let train := listing (fs r.2) (processed_path Sorel_init ++ ["train"]) in
       let test := listing (fs r.2) (processed_path Sorel_init ++ ["test"]) in
       match train_test_split shuffle files with
       | Ok (split_train, split_test) =>
           length split_train = 7%nat ∧ length split_test = 3%nat
       | Raise _ => False
       end
       ∧ length train = 3%nat
       ∧ length test = 3%nat)
    [shuffle_identity; shuffle_reverse].
Proof.
  apply Forall_cons_2; [|apply Forall_cons_2; [|apply Forall_nil_2]];
    cbv beta zeta; (split; [vm_compute; by split | evaluate]).
Qed.

(** C3: [Sorel.extract] writes into the extracted directory and never makes
    it.  After a clean and a download the directory does not exist and the
    call raises [FileNotFoundError] with nothing written; when the directory
    was made by hand the file is written with no mkdir before it.
    [Windows.extract], which calls [_setup], and [process] do make the
    directories they write into. *)
Theorem Sorel_extract_never_makes_extracted :
  Sorel_extract scan_in_map_order zlib_stored Sorel_init sorel_downloaded
  = (Raise FileNotFoundError, sorel_downloaded)
  ∧ (let r := Sorel_extract scan_in_map_order zlib_stored Sorel_init
                sorel_downloaded_with_extracted in
     r.1 = Ok tt
     ∧ log r.2 = [Wrote (extracted_path Sorel_init ++ ["00a1"])]
     ∧ writes_after_mkdir [] (log r.2) = false)
  ∧ writes_after_mkdir []
      (log (Windows_extract scan_in_map_order sha224_constant Windows_init
              windows_downloaded).2) = true
  ∧ writes_after_mkdir []
      (log (Sorel_process scan_in_map_order shuffle_identity Sorel_init ten_samples).2)
    = true.
Proof. cbv zeta. evaluate. Qed.

(** C4, as stated, fails: [VirusShare.extract] ends in
    [NotImplementedError] and has made three directories by then. *)
Lemma VirusShare_extract_touches_filesystem :
  declines VirusShare Extract = true
  ∧ (sample_method (VirusShare_init "00000") Extract empty_datasets).1
    = Raise (NotImplementedError
               "FIXME: hangs after 43817 files, when should be 65536 files")
  ∧ fs empty_datasets !! (extracted_path (VirusShare_init "00000")) = None
  ∧ fs (sample_method (VirusShare_init "00000") Extract empty_datasets).2
      !! (extracted_path (VirusShare_init "00000")) = Some Dir.
Proof. evaluate. Qed.

Lemma declined_operation_raises_witness :
  ∃ e w',
    sample_method (VirusShare_init "00000") Extract empty_datasets = (Raise e, w')
    ∧ grows_towards (extracted_path (VirusShare_init "00000")) empty_datasets w'
    ∧ ((VirusShare, Extract) ≠ (VirusShare, Extract) →
       w' = empty_datasets ∧ ∃ msg, e = NotImplementedError msg)
    ∧ ((VirusShare, Extract) = (VirusShare, Extract) →
       (∀ q content, q `prefix_of` extracted_path (VirusShare_init "00000") →
                     fs empty_datasets !! q ≠ Some (File content)) →
       is_dir (fs w') (extracted_path (VirusShare_init "00000")) = true
       ∧ e = NotImplementedError
               "FIXME: hangs after 43817 files, when should be 65536 files")
    ∧ ((VirusShare, Extract) = (VirusShare, Extract) →
       (∀ msg, e ≠ NotImplementedError msg) →
       Path_mkdir (extracted_path (VirusShare_init "00000")) true true empty_datasets
       = (Raise e, w')).
Proof.
  exact (declined_operation_raises
           scan_in_map_order shuffle_identity zlib_stored sha224_constant subprocess_idle
           VirusShare (Some "00000") (VirusShare_init "00000") Extract empty_datasets
           eq_refl eq_refl).
Defined.



Lemma clean_raises_when_absent_witness :
  path_exists (fs sorel_downloaded) (extracted_path Sorel_init) = false
  ∧ ∃ e w', sample_method Sorel_init Clean sorel_downloaded = (Raise e, w')
            ∧ (e = FileNotFoundError ∨ e = NotADirectoryError).
Proof.
  assert (H : path_exists (fs sorel_downloaded) (extracted_path Sorel_init) = false).
  { vm_compute. reflexivity. }
  split; [exact H|].
  apply (clean_raises_when_absent
           scan_in_map_order shuffle_identity zlib_stored sha224_constant subprocess_idle
           Sorel None Sorel_init sorel_downloaded eq_refl).
  - discriminate.
  - left. exact H.
Defined.


(** C9, as stated, fails: [Windows.clean] raises, and the download whose
    flag is set is never called. *)
Lemma main_stops_at_first_raise :
  requested true true false false = [Clean; Download]
  ∧ calls (log (sample_main "Windows" true true false false None (World ∅ [])).2)
    = [Clean]
  ∧ (sample_main "Windows" true true false false None (World ∅ [])).1
    = Raise (NotImplementedError "Windows cannot be cleaned.").
Proof. evaluate. Qed.

Lemma main_calls_requested_until_raise_witness :
  sample_main "Sorel" false false true true None sorel_downloaded_with_extracted
  = (emit (Constructed Sorel) ;;
     for_each (requested false false true true) (call
       scan_in_map_order shuffle_identity zlib_stored sha224_constant subprocess_idle
       Sorel_init)) sorel_downloaded_with_extracted
  ∧ ∃ done,
      calls (log (sample_main "Sorel" false false true true None
                    sorel_downloaded_with_extracted).2)
      = calls (log sorel_downloaded_with_extracted) ++ done
      ∧ done `prefix_of` requested false false true true
      ∧ ((sample_main "Sorel" false false true true None
            sorel_downloaded_with_extracted).1 = Ok tt →
         done = requested false false true true)
      ∧ (∀ e, (sample_main "Sorel" false false true true None
                 sorel_downloaded_with_extracted).1 = Raise e →
         done ≠ []).
Proof.
  exact (main_calls_requested_until_raise
           scan_in_map_order shuffle_identity zlib_stored sha224_constant subprocess_idle
           "Sorel" Sorel None Sorel_init false false true true
           sorel_downloaded_with_extracted eq_refl eq_refl).
Defined.

Lemma main_rejects_unknown_dataset_witness :
  ("CIFAR" ∉ ["SLEIPNIR"; "VirusShare"; "Sorel"; "Windows"])
  ∧ (sample_main "CIFAR" true true true true None sorel_full
     = (Raise (ValueError "Invalid dataset provided: CIFAR"), sorel_full)).
Proof.
  assert (H : "CIFAR" ∉ ["SLEIPNIR"; "VirusShare"; "Sorel"; "Windows"]).
  { apply (bool_decide_unpack _). vm_compute. exact I. }
  split; [exact H|].
  exact (main_rejects_unknown_dataset
           scan_in_map_order shuffle_identity zlib_stored sha224_constant subprocess_idle
           "CIFAR" true true true true None sorel_full H).
Defined.

(** * The further properties on the sample inputs *)

Lemma setup_makes_directories_witness :
  ∃ w', _setup Sorel_init (World ∅ []) = (Ok tt, w')
        ∧ is_dir (fs w') (root Sorel_init) = true
        ∧ is_dir (fs w') (downloads_path Sorel_init) = true
        ∧ is_dir (fs w') (extracted_path Sorel_init) = true
        ∧ is_dir (fs w') (processed_path Sorel_init) = true
        ∧ ∀ q n, (∅ : filesystem) !! q = Some n → fs w' !! q = Some n.
Proof.
  apply (setup_makes_directories Sorel None Sorel_init (World ∅ []) eq_refl);
    intros q content _; simpl; by rewrite lookup_empty.
Defined.

Lemma setup_idempotent_witness :
  _setup Sorel_init empty_datasets = (Ok tt, (_setup Sorel_init empty_datasets).2)
  ∧ ∃ w2, _setup Sorel_init (_setup Sorel_init empty_datasets).2 = (Ok tt, w2)
          ∧ fs w2 = fs (_setup Sorel_init empty_datasets).2.
Proof.
  assert (H : _setup Sorel_init empty_datasets
              = (Ok tt, (_setup Sorel_init empty_datasets).2)).
  { apply run_returns. vm_compute. reflexivity. }
  split; [exact H|].
  exact (setup_idempotent Sorel_init empty_datasets _ H).
Defined.

Lemma clean_removes_the_trees_only_witness :
  sample_method Sorel_init Clean sorel_full
  = (Ok tt, (sample_method Sorel_init Clean sorel_full).2)
  ∧ fs (sample_method Sorel_init Clean sorel_full).2 !! datasets_path
    = if bool_decide (extracted_path Sorel_init `prefix_of` datasets_path
                      ∨ processed_path Sorel_init `prefix_of` datasets_path
                      ∨ (Sorel = Sorel
                         ∧ downloads_path Sorel_init `prefix_of` datasets_path))
      then None
      else fs sorel_full !! datasets_path.
Proof.
  assert (H : sample_method Sorel_init Clean sorel_full
              = (Ok tt, (sample_method Sorel_init Clean sorel_full).2)).
  { apply run_returns. vm_compute. reflexivity. }
  split; [exact H|].
  exact (clean_removes_the_trees_only
           scan_in_map_order shuffle_identity zlib_stored sha224_constant subprocess_idle
           Sorel None Sorel_init sorel_full _ datasets_path eq_refl H).
Defined.

Lemma clean_raises_after_removing_extracted_witness :
  is_dir (fs sorel_downloaded_with_extracted) (extracted_path Sorel_init) = true
  ∧ path_exists (fs sorel_downloaded_with_extracted) (processed_path Sorel_init) = false
  ∧ ∃ e w',
      sample_method Sorel_init Clean sorel_downloaded_with_extracted = (Raise e, w')
      ∧ (e = FileNotFoundError ∨ e = NotADirectoryError)
      ∧ ∀ q, fs w' !! q
             = if bool_decide (extracted_path Sorel_init `prefix_of` q)
               then None
               else fs sorel_downloaded_with_extracted !! q.
Proof.
  assert (H1 : is_dir (fs sorel_downloaded_with_extracted) (extracted_path Sorel_init)
               = true).
  { vm_compute. reflexivity. }
  assert (H2 : path_exists (fs sorel_downloaded_with_extracted)
                 (processed_path Sorel_init) = false).
  { vm_compute. reflexivity. }
  split; [exact H1|]. split; [exact H2|].
  apply (clean_raises_after_removing_extracted
           scan_in_map_order shuffle_identity zlib_stored sha224_constant subprocess_idle
           Sorel None Sorel_init sorel_downloaded_with_extracted eq_refl);
    [discriminate | exact H1 | exact H2].
Defined.

Lemma process_needs_processed_directory_witness :
  is_dir (fs sorel_downloaded_with_extracted) (processed_path Sorel_init) = false
  ∧ ∃ e, sample_method Sorel_init Process sorel_downloaded_with_extracted
         = (Raise e, sorel_downloaded_with_extracted)
         ∧ (e = FileNotFoundError ∨ e = NotADirectoryError).
Proof.
  assert (H : is_dir (fs sorel_downloaded_with_extracted) (processed_path Sorel_init)
              = false).
  { vm_compute. reflexivity. }
  split; [exact H|].
  exact (process_needs_processed_directory
           scan_in_map_order shuffle_identity zlib_stored sha224_constant subprocess_idle
           Sorel None Sorel_init sorel_downloaded_with_extracted eq_refl H).
Defined.

Lemma process_changes_only_processed_witness :
  fs (sample_method Sorel_init Process ten_samples).2 !! datasets_path
  = fs ten_samples !! datasets_path.
Proof.
  apply (process_changes_only_processed
           scan_in_map_order shuffle_identity zlib_stored sha224_constant subprocess_idle
           Sorel_init ten_samples datasets_path).
  apply (bool_decide_unpack _). vm_compute. exact I.
Defined.

Lemma Sorel_extract_changes_only_extracted_witness :
  fs (Sorel_extract scan_in_map_order zlib_stored Sorel_init
        sorel_downloaded_with_extracted).2 !! (downloads_path Sorel_init ++ ["00a1"])
  = fs sorel_downloaded_with_extracted !! (downloads_path Sorel_init ++ ["00a1"]).
Proof.
  apply (Sorel_extract_changes_only_extracted scan_in_map_order zlib_stored
           Sorel_init sorel_downloaded_with_extracted
           (downloads_path Sorel_init ++ ["00a1"])).
  apply (bool_decide_unpack _). vm_compute. exact I.
Defined.

Lemma Sorel_extract_without_extracted_directory_witness :
  is_dir (fs sorel_downloaded) (extracted_path Sorel_init) = false
  ∧ (Sorel_extract scan_in_map_order zlib_stored Sorel_init sorel_downloaded).2
    = sorel_downloaded
  ∧ ((Sorel_extract scan_in_map_order zlib_stored Sorel_init sorel_downloaded).1 = Ok tt →
     iterdir scan_in_map_order (downloads_path Sorel_init) sorel_downloaded
     = (Ok [], sorel_downloaded)).
Proof.
  assert (H : is_dir (fs sorel_downloaded) (extracted_path Sorel_init) = false).
  { vm_compute. reflexivity. }
  split; [exact H|].
  exact (Sorel_extract_without_extracted_directory scan_in_map_order zlib_stored
           Sorel_init sorel_downloaded H).
Defined.

Lemma main_ignores_version_witness :
  sample_main "Sorel" false false true true (Some "00000") sorel_downloaded_with_extracted
  = sample_main "Sorel" false false true true None sorel_downloaded_with_extracted.
Proof.
  apply (main_ignores_version
           scan_in_map_order shuffle_identity zlib_stored sha224_constant subprocess_idle
           "Sorel" false false true true (Some "00000") sorel_downloaded_with_extracted).
  discriminate.
Defined.

Lemma Windows_extract_empties_downloads_witness :
  Windows_extract scan_in_map_order sha224_constant Windows_init windows_downloaded
  = (Ok tt, (Windows_extract scan_in_map_order sha224_constant Windows_init
               windows_downloaded).2)
  ∧ is_dir (fs (Windows_extract scan_in_map_order sha224_constant Windows_init
                  windows_downloaded).2) (downloads_path Windows_init) = true
  ∧ children (fs (Windows_extract scan_in_map_order sha224_constant Windows_init
                    windows_downloaded).2) (downloads_path Windows_init) = [].
Proof.
  assert (H : Windows_extract scan_in_map_order sha224_constant Windows_init
                windows_downloaded
              = (Ok tt, (Windows_extract scan_in_map_order sha224_constant Windows_init
                           windows_downloaded).2)).
  { apply run_returns. vm_compute. reflexivity. }
  split; [exact H|].
  apply (Windows_extract_empties_downloads scan_in_map_order sha224_constant
           Windows_init windows_downloaded _); [|exact H].
  intros l. reflexivity.
Defined.


Lemma process_writes_at_most_witness :
  (wrote_count (log (sample_method Sorel_init Process ten_samples).2)
   ≤ wrote_count (log ten_samples)
     + 2 * ((length (children (fs ten_samples) (extracted_path Sorel_init)) + 3) / 4))%nat
  ∧ ((3 ≤ length (children (fs ten_samples) (extracted_path Sorel_init)))%nat →
     (wrote_count (log (sample_method Sorel_init Process ten_samples).2)
      - wrote_count (log ten_samples)
      < length (children (fs ten_samples) (extracted_path Sorel_init)))%nat).
Proof.
  apply (process_writes_at_most
           scan_in_map_order shuffle_identity zlib_stored sha224_constant subprocess_idle
           Sorel None Sorel_init ten_samples).
  - intros l. reflexivity.
  - intros l. reflexivity.
  - reflexivity.
  - discriminate.
Defined.

Lemma process_raises_on_fewer_than_two_samples_witness :
  length (children (fs sorel_full) (extracted_path Sorel_init)) = 1%nat
  ∧ ∃ msg w',
      sample_method Sorel_init Process sorel_full = (Raise (ValueError msg), w')
      ∧ is_dir (fs w') (processed_path Sorel_init ++ ["train"]) = true
      ∧ is_dir (fs w') (processed_path Sorel_init ++ ["test"]) = true.
Proof.
  assert (H : length (children (fs sorel_full) (extracted_path Sorel_init)) = 1%nat).
  { vm_compute. reflexivity. }
  assert (Htrain : fs sorel_full !! (processed_path Sorel_init ++ ["train"]) = None).
  { vm_compute. reflexivity. }
  assert (Htest : fs sorel_full !! (processed_path Sorel_init ++ ["test"]) = None).
  { vm_compute. reflexivity. }
  split; [exact H|].
  apply (process_raises_on_fewer_than_two_samples
           scan_in_map_order shuffle_identity zlib_stored sha224_constant subprocess_idle
           Sorel None Sorel_init sorel_full).
  - intros l. reflexivity.
  - reflexivity.
  - discriminate.
  - vm_compute. reflexivity.
  - intros content. rewrite Htrain. discriminate.
  - intros content. rewrite Htest. discriminate.
  - vm_compute. reflexivity.
  - rewrite H. lia.
Defined.

Lemma Sorel_extract_decompresses_witness :
  ∃ d, zlib_stored [] = Some d
       ∧ fs (Sorel_extract scan_in_map_order zlib_stored Sorel_init
               sorel_downloaded_with_extracted).2
           !! (extracted_path Sorel_init ++ [name_of (downloads_path Sorel_init ++ ["00a1"])])
         = Some (File d).
Proof.
  apply (Sorel_extract_decompresses scan_in_map_order zlib_stored
           sorel_downloaded_with_extracted _ (downloads_path Sorel_init ++ ["00a1"]) []).
  - intros l. reflexivity.
  - apply run_returns. vm_compute. reflexivity.
  - discriminate.
  - vm_compute. reflexivity.
  - vm_compute. reflexivity.
Defined.



Lemma clean_paper_collection_keeps_final_names_witness :
  listing (fs papers_clean) papers_path
  ≡ₚ ["Attention_Is_All_You_Need.pdf"; "Deep_Learning.pdf"]
  ∧ ∃ w', clean_paper_collection scan_in_map_order papers_clean = (Ok tt, w')
          ∧ fs w' = fs papers_clean.
Proof.
  assert (H : ∃ a b, children (fs papers_clean) papers_path = [a; b]
                     ∧ name_of a = "Deep_Learning.pdf"
                     ∧ name_of b = "Attention_Is_All_You_Need.pdf").
  { eexists _, _. vm_compute. repeat split. }
  destruct H as (a & b & E & Ha & Hb).
  split.
  { unfold listing. rewrite E. simpl. rewrite Ha, Hb. apply Permutation_swap. }
  apply (clean_paper_collection_keeps_final_names scan_in_map_order papers_clean).
  - intros l. reflexivity.
  - vm_compute. reflexivity.
  - intros f Hf. rewrite E in Hf.
    apply elem_of_cons in Hf as [->|Hf]; [rewrite Ha|].
    { split; [discriminate|]. repeat split; vm_compute; reflexivity. }
    apply list_elem_of_singleton in Hf as ->. rewrite Hb.
    split; [discriminate|]. repeat split; vm_compute; reflexivity.
Defined.

Lemma clean_paper_collection_changes_only_papers_witness :
  (clean_paper_collection scan_in_map_order papers_raw).1 = Ok tt
  ∧ listing (fs (clean_paper_collection scan_in_map_order papers_raw).2) papers_path
    ≡ₚ ["Attention_Is_All_You_Need.pdf"; "Deep_Learning.pdf"]
  ∧ fs (clean_paper_collection scan_in_map_order papers_raw).2
      !! ["home"; "lk3591"; "notes.txt"]
    = fs papers_raw !! ["home"; "lk3591"; "notes.txt"].
Proof.
  split; [vm_compute; reflexivity|]. split.
  { apply (bool_decide_unpack _). vm_compute. exact I. }
  apply (clean_paper_collection_changes_only_papers scan_in_map_order papers_raw
           ["home"; "lk3591"; "notes.txt"]).
  - intros l. reflexivity.
  - vm_compute. reflexivity.
Defined.
